(** * Reverse-tunnel routing core: cluster peers and the local site

    A shallow embedding of [lib/reversetunnel/peer.go] and of
    [localSite.Dial] from [lib/reversetunnel/localsite.go], with the
    properties of peer selection, peer bookkeeping, liveness status and
    the dial paths.

    Conventions of the embedding:
    - a Go [error] value is [option trace_error], [None] being [nil];
    - a [*clusterPeer] is a location of a heap of peer structs; the peer map
      holds locations, so that [updatePeer] writes through the pointer it
      finds in the map, as the source does;
    - Go's [range] over a map visits the entries in an unspecified order:
      the order is an explicit argument, constrained to be a permutation of
      the map's entries;
    - calls into collaborators (SSH client, certificate cache, forwarding
      server, network) are recorded as events of a trace, and what each call
      returns is given by a record of outcomes. *)

From Stdlib Require Import ZArith Lia.
From stdpp Require Import gmap strings list fin_maps.

Local Open Scope Z_scope.

(** ** Package [time]: instants and durations *)

Module time.

(** An instant, in nanoseconds counted from the zero [Time]. *)
Definition Time := Z.

(** [time.Duration] is an [int64] count of nanoseconds. *)
Definition Duration := Z.

Definition minDuration : Duration := - 2 ^ 63.
Definition maxDuration : Duration := 2 ^ 63 - 1.

(** [time.Time{}] *)
Definition zero : Time := 0.

(** [t.After(u)]: [t] is strictly later than [u]. *)
Definition After (t u : Time) : bool := bool_decide (u < t).

(** [t.Sub(u)]: the duration [t - u], saturated to the range of
    [Duration]. *)
Definition Sub (t u : Time) : Duration :=
  let d := t - u in
  if bool_decide (maxDuration < d) then maxDuration
  else if bool_decide (d < minDuration) then minDuration
  else d.

End time.

(** ** Errors of package [trace] *)

Inductive trace_error : Type :=
| NotFound (message : string)         (* trace.NotFound(message) *)
| Failure (what : string)             (* an error of a collaborator *)
| Wrap (err : trace_error).           (* trace.Wrap(err) *)

Abbreviation error := (option trace_error).

Fixpoint IsNotFound (e : trace_error) : bool :=
  match e with
  | NotFound _ => true
  | Failure _ => false
  | Wrap e' => IsNotFound e'
  end.

(** ** Data model *)

(** [net.Addr], read through its two methods. *)
Module net.
Record Addr := { Network : string; String : string }.
End net.

(** [services.TunnelConnection], read through its getters. *)
Module services.
Record TunnelConnection := {
  GetName : string;
  GetClusterName : string;
  GetProxyAddr : string;
  GetLastHeartbeat : time.Time
}.
End services.

(** Handles of the objects the peers refer to and never look into;
    [None] is the nil interface value. *)
Definition ClientI := option nat.       (* auth.ClientI *)
Definition AccessPoint := option nat.   (* auth.AccessPoint *)
Definition server := nat.               (* *server *)

(** The log entry a peer is built with: its component fields.  (The
    component tag itself is a constant of package [teleport].) *)
Record LogEntry := { fields : list (string * string) }.

Record clusterPeer := {
  log : LogEntry;
  clt : ClientI;
  accessPoint : AccessPoint;
  connInfo : services.TunnelConnection;
  srv : server
}.

(** [*clusterPeer]: a location; the heap gives the struct behind it. *)
Definition loc := nat.
Definition heap := loc -> clusterPeer.

(** [peer.connInfo = conn] through the pointer [l]. *)
Definition set_connInfo (h : heap) (l : loc) (conn : services.TunnelConnection) : heap :=
  fun l' =>
    if decide (l' = l)
    then {| log := log (h l); clt := clt (h l); accessPoint := accessPoint (h l);
            connInfo := conn; srv := srv (h l) |}
    else h l'.

(** No nil is ever stored in [peers]: [addPeer] dereferences its argument
    before it inserts it, and nothing else inserts. *)
Record clusterPeers := {
  clusterName : string;
  peers : gmap string loc
}.

(** Modelled from the spec: the status strings [RemoteSiteStatusOffline] and
    [RemoteSiteStatusOnline] are declared outside the files at hand; the
    specification fixes them as "offline" and "online". *)
Definition RemoteSiteStatusOffline : string := "offline".
Definition RemoteSiteStatusOnline : string := "online".

Definition newClusterPeers (name : string) : clusterPeers :=
  {| clusterName := name; peers := ∅ |}.

(** ** One peer *)

Module ClusterPeer.
Section Threshold.

(** [defaults.ReverseTunnelOfflineThreshold], a [time.Duration] declared
    in package [defaults]. *)
Variable ReverseTunnelOfflineThreshold : time.Duration.

Definition GetStatus (now : time.Time) (s : clusterPeer) : string :=
  let diff := time.Sub now (services.GetLastHeartbeat (connInfo s)) in
  if bool_decide (ReverseTunnelOfflineThreshold < diff)
  then RemoteSiteStatusOffline
  else RemoteSiteStatusOnline.

End Threshold.

Definition GetName (s : clusterPeer) : string :=
  services.GetClusterName (connInfo s).

Definition GetLastConnected (s : clusterPeer) : time.Time :=
  services.GetLastHeartbeat (connInfo s).

Definition CachingAccessPoint (s : clusterPeer) : AccessPoint * error :=
  (accessPoint s, None).

Definition GetClient (s : clusterPeer) : ClientI * error :=
  (clt s, None).

End ClusterPeer.

(** ** The collection of peers of one cluster *)

Module ClusterPeers.

(** The last heartbeat of the peer behind a pointer. *)
Definition heartbeat (h : heap) (l : loc) : time.Time :=
  services.GetLastHeartbeat (connInfo (h l)).

(** The orders in which [range p.peers] may visit the entries. *)
Definition range_order (p : clusterPeers) (order : list (string * loc)) : Prop :=
  order ≡ₚ map_to_list (peers p).

(** One iteration of the loop of [pickPeer]. *)
Definition pickPeer_step (h : heap) (currentPeer : option loc)
    (entry : string * loc) : option loc :=
  let peer := entry.2 in
  match currentPeer with
  | None => Some peer
  | Some current =>
      if time.After (services.GetLastHeartbeat (connInfo (h peer)))
                    (services.GetLastHeartbeat (connInfo (h current)))
      then Some peer
      else Some current
  end.

Definition pickPeer (h : heap) (order : list (string * loc))
    : option loc * error :=
  let currentPeer := fold_left (pickPeer_step h) order None in
  match currentPeer with
  | None => (None, Some (NotFound "no active peers found for %v"))
  | Some peer => (Some peer, None)
  end.

(** [updatePeer] looks the pointer up and writes through it; the map
    itself is returned as it was. *)
Definition updatePeer (p : clusterPeers) (h : heap) (conn : services.TunnelConnection)
    : bool * clusterPeers * heap :=
  match peers p !! services.GetName conn with
  | None => (false, p, h)
  | Some peer => (true, p, set_connInfo h peer conn)
  end.

Definition addPeer (p : clusterPeers) (h : heap) (peer : loc) : clusterPeers :=
  {| clusterName := clusterName p;
     peers := <[services.GetName (connInfo (h peer)) := peer]> (peers p) |}.

Definition removePeer (p : clusterPeers) (connInfo : services.TunnelConnection)
    : clusterPeers :=
  {| clusterName := clusterName p;
     peers := delete (services.GetName connInfo) (peers p) |}.

(** The delegating methods test the error of [pickPeer] first and then go
    through the pointer.  [pickPeer] returns a nil pointer only together
    with an error, so the case of a nil pointer without error, where the
    source would dereference nil, does not arise; it is given the value of
    the error case. *)
Definition CachingAccessPoint (h : heap) (order : list (string * loc))
    : AccessPoint * error :=
  let '(peer, err) := pickPeer h order in
  match err, peer with
  | Some err, _ => (None, Some (Wrap err))
  | None, Some peer => ClusterPeer.CachingAccessPoint (h peer)
  | None, None => (None, None)
  end.

Definition GetClient (h : heap) (order : list (string * loc))
    : ClientI * error :=
  let '(peer, err) := pickPeer h order in
  match err, peer with
  | Some err, _ => (None, Some (Wrap err))
  | None, Some peer => ClusterPeer.GetClient (h peer)
  | None, None => (None, None)
  end.

Definition GetName (p : clusterPeers) : string := clusterName p.

Section Threshold.

Variable ReverseTunnelOfflineThreshold : time.Duration.

Definition GetStatus (h : heap) (order : list (string * loc))
    (now : time.Time) : string :=
  let '(peer, err) := pickPeer h order in
  match err, peer with
  | Some err, _ => RemoteSiteStatusOffline
  | None, Some peer =>
      ClusterPeer.GetStatus ReverseTunnelOfflineThreshold now (h peer)
  | None, None => RemoteSiteStatusOffline
  end.

End Threshold.

Definition GetLastConnected (h : heap) (order : list (string * loc))
    : time.Time :=
  let '(peer, err) := pickPeer h order in
  match err, peer with
  | Some err, _ => time.zero
  | None, Some peer => ClusterPeer.GetLastConnected (h peer)
  | None, None => time.zero
  end.

(** Every registered pointer is filed under the name of its own
    connection.  [newClusterPeers] establishes this and the three
    bookkeeping operations keep it. *)
Definition keyed_by_name (p : clusterPeers) (h : heap) : Prop :=
  ∀ k l, peers p !! k = Some l → services.GetName (connInfo (h l)) = k.

End ClusterPeers.

(** ** Function bodies with early return and deferred calls

    A body threads a frame (the trace of collaborator calls made so far and
    the stack of deferred calls) and either goes on with a value or
    returns from the function.  When the function returns, the deferred
    calls run, last deferred first. *)

Module Go.
Section Body.

Context {E R : Type}.

Record frame := { events : list E; deferred : list E }.

Inductive flow (A : Type) : Type :=
| Next (a : A)
| Returned (r : R).
Arguments Next {A} a.
Arguments Returned {A} r.

Definition body (A : Type) : Type := frame -> flow A * frame.

Definition pure {A} (a : A) : body A := fun f => (Next a, f).

Definition bind {A B} (m : body A) (k : A -> body B) : body B :=
  fun f =>
    match m f with
    | (Next a, f') => k a f'
    | (Returned r, f') => (Returned r, f')
    end.

(** [return r] *)
Definition ret {A} (r : R) : body A := fun f => (Returned r, f).

(** A call into a collaborator: it is recorded, and yields what the
    collaborator answers. *)
Definition call {A} (e : E) (answer : A) : body A :=
  fun f => (Next answer, {| events := events f ++ [e]; deferred := deferred f |}).

(** [defer c]: the call [c] is pushed; it runs when the function returns. *)
Definition defer (c : E) : body unit :=
  fun f => (Next tt, {| events := events f; deferred := c :: deferred f |}).

(** Running a function: its body, then the deferred calls. *)
Definition run (b : body R) : R * list E :=
  match b {| events := []; deferred := [] |} with
  | (Next r, f) => (r, events f ++ deferred f)
  | (Returned r, f) => (r, events f ++ deferred f)
  end.

End Body.

Arguments frame : clear implicits.
Arguments flow : clear implicits.
Arguments body : clear implicits.
Arguments Next {R A} a.
Arguments Returned {R A} r.

End Go.

(** Bodies are written with the notations [x ← m; k] and [m;; k]. *)
#[global] Instance body_bind {E R} : MBind (Go.body E R) :=
  fun A B k m => Go.bind m k.

(** ** [clusterPeer.Dial] *)

Module PeerDial.

(** Handles of what the SSH collaborators hand out. *)
Definition Client := nat.    (* *ssh.Client *)
Definition Session := nat.   (* *ssh.Session *)
Definition Writer := nat.    (* io.WriteCloser *)
Definition Reader := nat.    (* io.Reader *)

(** The connection adapter built by [utils.NewPipeNetConn]. *)
Record PipeNetConn := {
  reader : Reader;
  writer : Writer;
  closer : Session;
  localAddr : net.Addr;
  remoteAddr : net.Addr
}.

Inductive event : Type :=
| Infof (format : string) (args : list string)
| DialWithDeadline (network addr : string) (config : server)
| NewSession (c : Client)
| StdinPipe (se : Session)
| StdoutPipe (se : Session)
| RequestSubsystem (se : Session) (subsystem : string)
| SessionClose (se : Session)
| ClientClose (c : Client).

#[global] Instance event_eq_dec : EqDecision event.
Proof. solve_decision. Defined.

(** What each collaborator answers in one run of [Dial]. *)
Record outcomes := {
  dialed : Client + trace_error;
  session : Session + trace_error;
  stdin : Writer + trace_error;
  stdout : Reader + trace_error;
  subsystem_err : error
}.

(** [fmt.Sprintf("proxy:%v@%v", to, clusterName)]: [%v] prints a
    [net.Addr] through its [String] method and a string as it is. *)
Definition subsystem_name (to : net.Addr) (cluster : string) : string :=
  "proxy:" +:+ net.String to +:+ "@" +:+ cluster.

Definition Dial_body (o : outcomes) (s : clusterPeer) (from to : net.Addr)
    : Go.body event (option PipeNetConn * error) (option PipeNetConn * error) :=
  Go.call (Infof "[TUNNEL] forward connection to %v through the peer %v"
             [net.String to; services.GetProxyAddr (connInfo s)]) tt;;
  r ← Go.call (DialWithDeadline (net.Network to)
                  (services.GetProxyAddr (connInfo s)) (srv s)) (dialed o);
  match r with
  | inr err => Go.ret (None, Some (Wrap err))
  | inl client =>
    Go.defer (ClientClose client);;
    r ← Go.call (NewSession client) (session o);
    match r with
    | inr err => Go.ret (None, Some (Wrap err))
    | inl se =>
      Go.defer (SessionClose se);;
      r ← Go.call (StdinPipe se) (stdin o);
      match r with
      | inr err => Go.ret (None, Some (Wrap err))
      | inl writer =>
        r ← Go.call (StdoutPipe se) (stdout o);
        match r with
        | inr err => Go.ret (None, Some (Wrap err))
        | inl reader =>
          r ← Go.call (RequestSubsystem se
                          (subsystem_name to (services.GetClusterName (connInfo s))))
                       (subsystem_err o);
          match r with
          | Some err => Go.ret (None, Some (Wrap err))
          | None =>
            Go.ret (Some {| reader := reader; writer := writer; closer := se;
                            localAddr := from; remoteAddr := to |}, None)
          end
        end
      end
    end
  end.

Definition Dial (o : outcomes) (s : clusterPeer) (from to : net.Addr)
    : (option PipeNetConn * error) * list event :=
  Go.run (Dial_body o s from to).

Definition is_RequestSubsystem (e : event) : bool :=
  match e with RequestSubsystem _ _ => true | _ => false end.

(** The subsystem requests of a trace. *)
Definition subsystem_requests (tr : list event) : list event :=
  filter (fun e => is_RequestSubsystem e = true) tr.

(** How often a call occurs in a trace. *)
Definition occurrences (e : event) (tr : list event) : nat :=
  length (filter (fun e' => e' = e) tr).

End PeerDial.

(** ** [localSite.Dial] *)

Module LocalSite.

Definition Certificate := nat.    (* the host certificate of the cache *)
Definition Forwarder := nat.      (* the server built by forward.New *)
Definition Conn := nat.           (* net.Conn *)
Definition Agent := option nat.   (* agent.Agent *)

(** The fields of [localSite] that [Dial] reads. *)
Record localSite := {
  client : ClientI;
  agent : Agent;
  domainName : string
}.

Inductive event : Type :=
| Lock
| Unlock
| Debugf (format : string) (args : list string)
| CacheGet (addr : string)                      (* hostCertificateCache.get *)
| ForwardNew (c : ClientI) (a : Agent) (src : string) (cert : Certificate)
| ForwarderDial (srv : Forwarder) (addr : string)
| NetDial (network addr : string).              (* net.Dial *)

#[global] Instance event_eq_dec : EqDecision event.
Proof. solve_decision. Defined.

(** What each collaborator answers in one run of [Dial]. *)
Record outcomes := {
  cached : Certificate + trace_error;
  forwarder : Forwarder + trace_error;
  forwarded : Conn + trace_error;
  direct : option Conn * error
}.

(** The body of [Dial] as a function of its local [recordingProxy]. *)
Definition Dial_body (recordingProxy : bool) (o : outcomes) (s : localSite)
    (from to : net.Addr)
    : Go.body event (option Conn * error) (option Conn * error) :=
  Go.call Lock tt;;
  Go.defer Unlock;;
  Go.call (Debugf "[PROXY] localSite.Dial(from=%v, to=%v)"
             [net.String from; net.String to]) tt;;
  if recordingProxy then
    r ← Go.call (CacheGet (net.String to)) (cached o);
    match r with
    | inr err => Go.ret (None, Some (Wrap err))
    | inl hostCertificate =>
      r ← Go.call (ForwardNew (client s) (agent s) (net.String from)
                     hostCertificate) (forwarder o);
      match r with
      | inr err => Go.ret (None, Some (Wrap err))
      | inl remoteServer =>
        r ← Go.call (ForwarderDial remoteServer (net.String to)) (forwarded o);
        match r with
        | inr err => Go.ret (None, Some (Wrap err))
        | inl conn => Go.ret (Some conn, None)
        end
      end
    end
  else
    r ← Go.call (NetDial (net.Network to) (net.String to)) (direct o);
    Go.ret r.

(** [recordingProxy := true] *)
Definition Dial (o : outcomes) (s : localSite) (from to : net.Addr)
    : (option Conn * error) * list event :=
  let recordingProxy := true in
  Go.run (Dial_body recordingProxy o s from to).

Definition is_CacheGet (e : event) : bool :=
  match e with CacheGet _ => true | _ => false end.

Definition is_NetDial (e : event) : bool :=
  match e with NetDial _ _ => true | _ => false end.

(** The certificate-cache lookups and the direct network dials of a
    trace. *)
Definition cache_lookups (tr : list event) : list event :=
  filter (fun e => is_CacheGet e = true) tr.

Definition direct_dials (tr : list event) : list event :=
  filter (fun e => is_NetDial e = true) tr.

End LocalSite.

(** ** [newClusterPeer] *)

Module Construct.

(** What [NewProxyDialer] hands back; [newClusterPeer] takes the method
    value [dialer.Dial] of it and never looks into it. *)
Definition ProxyDialer := option nat.

Inductive event : Type :=
| NewProxyDialer (config : server) (dial : clusterPeer)
| NewClient (addr : string) (dialer : ProxyDialer)
| NewAccessPoint (c : ClientI) (cacheName : list string).

(** What each collaborator answers in one run of [newClusterPeer]; each
    is the pair of results of the Go call. *)
Record outcomes := {
  proxyDialer : ProxyDialer * error;
  authClient : ClientI * error;
  newAccessPoint : AccessPoint * error
}.

Definition newClusterPeer_body (o : outcomes) (srv0 : server)
    (connInfo0 : services.TunnelConnection)
    : Go.body event (option clusterPeer * error) (option clusterPeer * error) :=
  let clusterPeer0 :=
    {| srv := srv0;
       connInfo := connInfo0;
       log := {| fields := [("cluster", services.GetClusterName connInfo0);
                            ("side", "server")] |};
       clt := None;
       accessPoint := None |} in
  '(dialer, err) ← Go.call (NewProxyDialer srv0 clusterPeer0) (proxyDialer o);
  '(clt0, err) ← Go.call (NewClient "http://stub:0" dialer) (authClient o);
  match err with
  | Some e => Go.ret (None, Some (Wrap e))
  | None =>
    let clusterPeer1 :=
      {| srv := srv clusterPeer0; connInfo := connInfo clusterPeer0;
         log := log clusterPeer0; clt := clt0;
         accessPoint := accessPoint clusterPeer0 |} in
    '(accessPoint0, err) ← Go.call
        (NewAccessPoint clt0 ["reverse"; services.GetClusterName connInfo0])
        (newAccessPoint o);
    match err with
    | Some e => Go.ret (None, Some (Wrap e))
    | None =>
      let clusterPeer2 :=
        {| srv := srv clusterPeer1; connInfo := connInfo clusterPeer1;
           log := log clusterPeer1; clt := clt clusterPeer1;
           accessPoint := accessPoint0 |} in
      Go.ret (Some clusterPeer2, None)
    end
  end.

Definition newClusterPeer (o : outcomes) (srv0 : server)
    (connInfo0 : services.TunnelConnection)
    : (option clusterPeer * error) * list event :=
  Go.run (newClusterPeer_body o srv0 connInfo0).

End Construct.

(** ** [clusterPeers.Dial] *)

Module PeersDial.

(** [Dial] picks a peer and dials through it; without a peer it returns
    the wrapped error of [pickPeer] and calls nothing.  (As in the other
    delegating methods, a nil pointer without error does not arise.) *)
Definition Dial (o : PeerDial.outcomes) (h : heap) (order : list (string * loc))
    (from to : net.Addr)
    : (option PeerDial.PipeNetConn * error) * list PeerDial.event :=
  let '(peer, err) := ClusterPeers.pickPeer h order in
  match err, peer with
  | Some err, _ => ((None, Some (Wrap err)), [])
  | None, Some peer => PeerDial.Dial o (h peer) from to
  | None, None => ((None, None), [])
  end.

(** The deferred calls of [clusterPeer.Dial]. *)
Definition is_Close (e : PeerDial.event) : bool :=
  match e with
  | PeerDial.SessionClose _ | PeerDial.ClientClose _ => true
  | _ => false
  end.

End PeersDial.

(** ** [findServer] *)

Module FindServer.

(** [services.Server], read through the two getters [findServer] uses. *)
Record Server := { GetAddr : string; GetHostname : string }.

(** [log.Warningf] *)
Inductive event : Type :=
| Warningf (format : string) (args : list string).

Section SplitHostPort.

(** [net.SplitHostPort] of the Go library: the host and the port of an
    address, or the text of the error. *)
Variable SplitHostPort : string -> (string * string) + string.

(** The test of the loop body on a server whose address has the port
    [port]. *)
Definition is_addressed (addr : string) (srv : Server) (port : string) : bool :=
  negb (String.length (GetHostname srv) =? 0)%nat
  && negb (String.length port =? 0)%nat
  && (bool_decide (addr = GetHostname srv +:+ ":" +:+ port)
      || bool_decide (addr = GetAddr srv)).

Fixpoint findServer (addr : string) (servers : list Server)
    : (option Server * error) * list event :=
  match servers with
  | [] => ((None, Some (NotFound ("server " +:+ addr +:+ " is unknown"))), [])
  | srv :: rest =>
      match SplitHostPort (GetAddr srv) with
      | inr err =>
          let '(found, warnings) := findServer addr rest in
          (found,
           Warningf "server %v(%v) has incorrect address format (%v)"
             [GetAddr srv; GetHostname srv; err] :: warnings)
      | inl (_, port) =>
          if is_addressed addr srv port
          then ((Some srv, None), [])
          else findServer addr rest
      end
  end.

(** The warning that the loop logs on a server, if any. *)
Definition warning_of (srv : Server) : option event :=
  match SplitHostPort (GetAddr srv) with
  | inr err =>
      Some (Warningf "server %v(%v) has incorrect address format (%v)"
              [GetAddr srv; GetHostname srv; err])
  | inl _ => None
  end.

(** A server that [findServer] accepts for [addr]. *)
Definition accepted (addr : string) (srv : Server) : Prop :=
  ∃ host port,
    SplitHostPort (GetAddr srv) = inl (host, port)
    ∧ GetHostname srv ≠ "" ∧ port ≠ ""
    ∧ (addr = GetHostname srv +:+ ":" +:+ port ∨ addr = GetAddr srv).

End SplitHostPort.

End FindServer.

(** ** The local site: construction and agent *)

Module LocalSiteFull.

Definition Channel := option nat.        (* ssh.Channel *)
Definition remoteConn := nat.            (* *remoteConn *)

(** The cache that [NewHostCertificateCache(client)] returns, kept as that
    call on its client. *)
Record hostCertificateCache := NewHostCertificateCache { cache_client : ClientI }.

(** All the fields of [localSite]. *)
Record localSite := {
  client : ClientI;
  authServer : string;
  log : LogEntry;
  domainName : string;
  connections : list remoteConn;
  lastUsed : Z;
  lastActive : time.Time;
  srv : option server;
  accessPoint : AccessPoint;
  agent : LocalSite.Agent;
  agentChan : Channel;
  certificateCache : option hostCertificateCache
}.

Inductive event : Type :=
| NewAccessPoint (c : ClientI) (cacheName : list string)
| Errorf (format : string) (args : list (LocalSite.Agent + Channel)).

(** [newlocalSite]; [newAccessPoint] answers with the pair of results of
    [srv.newAccessPoint]. *)
Definition newlocalSite (newAccessPoint : AccessPoint * error)
    (srv0 : server) (domainName0 : string) (client0 : ClientI)
    : (option localSite * error) * list event :=
  let '(accessPoint0, err) := newAccessPoint in
  let calls := [NewAccessPoint client0 ["reverse"; domainName0]] in
  match err with
  | Some e => ((None, Some (Wrap e)), calls)
  | None =>
      ((Some {| client := client0;
                accessPoint := accessPoint0;
                domainName := domainName0;
                log := {| fields := [("domainName", domainName0);
                                     ("side", "server");
                                     ("type", "localSite")] |};
                certificateCache := Some (NewHostCertificateCache client0);
                authServer := ""; connections := []; lastUsed := 0;
                lastActive := time.zero; srv := None;
                agent := None; agentChan := None |}, None),
       calls)
  end.


(** The fields that [Dial] reads. *)
Definition dial_view (s : localSite) : LocalSite.localSite :=
  {| LocalSite.client := client s; LocalSite.agent := agent s;
     LocalSite.domainName := domainName s |}.

Definition Dial (o : LocalSite.outcomes) (s : localSite) (from to : net.Addr)
    : (option LocalSite.Conn * error) * list LocalSite.event :=
  LocalSite.Dial o (dial_view s) from to.

Definition CachingAccessPoint (s : localSite) : AccessPoint * error :=
  (accessPoint s, None).

Definition GetClient (s : localSite) : ClientI * error := (client s, None).

Definition GetStatus (s : localSite) : string := RemoteSiteStatusOnline.

Definition GetName (s : localSite) : string := domainName s.

(** [time.Now()] is the argument [now]. *)
Definition GetLastConnected (now : time.Time) (s : localSite) : time.Time := now.

End LocalSiteFull.

(** ** A scenario: two peers of cluster [prod] *)

Module Scenario.

Definition second : time.Duration := 1000000000.

Definition connA : services.TunnelConnection :=
  {| services.GetName := "proxy-a"; services.GetClusterName := "prod";
     services.GetProxyAddr := "192.168.1.1:3024";
     services.GetLastHeartbeat := 100 * second |}.

Definition connB : services.TunnelConnection :=
  {| services.GetName := "proxy-b"; services.GetClusterName := "prod";
     services.GetProxyAddr := "192.168.1.2:3024";
     services.GetLastHeartbeat := 105 * second |}.

(** A later heartbeat of the connection of peer A. *)
Definition connA' : services.TunnelConnection :=
  {| services.GetName := "proxy-a"; services.GetClusterName := "prod";
     services.GetProxyAddr := "192.168.1.1:3024";
     services.GetLastHeartbeat := 110 * second |}.

(** A connection that never registered. *)
Definition connC : services.TunnelConnection :=
  {| services.GetName := "proxy-c"; services.GetClusterName := "prod";
     services.GetProxyAddr := "192.168.1.3:3024";
     services.GetLastHeartbeat := 90 * second |}.

Definition peer_of (conn : services.TunnelConnection) (c a : nat) : clusterPeer :=
  {| log := {| fields := [("cluster", services.GetClusterName conn);
                          ("side", "server")] |};
     clt := Some c; accessPoint := Some a; connInfo := conn; srv := 0%nat |}.

(** Peer A lives at location 0, peer B at every other location. *)
Definition mem : heap :=
  fun l => match l with
           | O => peer_of connA 1 2
           | _ => peer_of connB 3 4
           end.

Definition both : clusterPeers :=
  ClusterPeers.addPeer
    (ClusterPeers.addPeer (newClusterPeers "prod") mem 0%nat) mem 1%nat.

Definition threshold : time.Duration := 25 * second.

Definition target : net.Addr :=
  {| net.Network := "tcp"; net.String := "10.0.0.5:22" |}.

Definition source : net.Addr :=
  {| net.Network := "tcp"; net.String := "172.16.0.9:51234" |}.

End Scenario.

(** ** A scenario: three servers of the local cluster *)

Module ServerScenario.

(** A splitter for the addresses of the scenario: host and port at the
    colon where there is one. *)
Definition split (a : string) : (string * string) + string :=
  if bool_decide (a = "10.0.0.5:3022") then inl ("10.0.0.5", "3022")
  else if bool_decide (a = "10.0.0.6:3022") then inl ("10.0.0.6", "3022")
  else inr "missing port in address".

Definition nameless : FindServer.Server :=
  {| FindServer.GetAddr := "10.0.0.5:3022"; FindServer.GetHostname := "" |}.

Definition portless : FindServer.Server :=
  {| FindServer.GetAddr := "10.0.0.7"; FindServer.GetHostname := "gamma" |}.

Definition beta : FindServer.Server :=
  {| FindServer.GetAddr := "10.0.0.6:3022"; FindServer.GetHostname := "beta" |}.

Definition servers : list FindServer.Server := [nameless; portless; beta].

End ServerScenario.

(** * Properties *)

(** ** Peer selection *)

Module PickPeerFacts.
Import ClusterPeers.

Lemma After_spec t u : time.After t u = true ↔ u < t.
Proof. unfold time.After. by rewrite bool_decide_eq_true. Qed.

(** The loop started with a current peer ends with a peer that is the
    current one or one of the visited ones, and that no visited peer and
    not the initial one beats. *)
Lemma loop_from_some h order current :
  ∃ best,
    fold_left (pickPeer_step h) order (Some current) = Some best
    ∧ (best = current ∨ best ∈ order.*2)
    ∧ heartbeat h current ≤ heartbeat h best
    ∧ ∀ l, l ∈ order.*2 → heartbeat h l ≤ heartbeat h best.
Proof.
  revert current. induction order as [|[k peer] rest IH]; intros current.
  - exists current. cbn. split_and!; [done|by left|lia|].
    intros l Hl. by apply elem_of_nil in Hl.
  - cbn [fold_left pickPeer_step snd].
    destruct (time.After _ _) eqn:Hlater.
    + apply After_spec in Hlater.
      destruct (IH peer) as (best & Hfold & Hin & Hge & Hall).
      exists best. split_and!; [done| |unfold heartbeat in *; lia|].
      * right. cbn. destruct Hin as [->|Hin]; [left|by right].
      * intros l Hl. cbn in Hl. apply elem_of_cons in Hl as [->|Hl]; [done|by apply Hall].
    + apply not_true_iff_false in Hlater. rewrite After_spec in Hlater.
      destruct (IH current) as (best & Hfold & Hin & Hge & Hall).
      exists best. split_and!; [done| |done|].
      * destruct Hin as [->|Hin]; [by left|right; cbn; by right].
      * intros l Hl. cbn in Hl. apply elem_of_cons in Hl as [->|Hl]; [unfold heartbeat in *; lia|by apply Hall].
Qed.

(** The loop over a non-empty sequence of entries, started with nil. *)
Lemma loop_from_nil h order :
  order ≠ [] →
  ∃ best,
    fold_left (pickPeer_step h) order None = Some best
    ∧ best ∈ order.*2
    ∧ ∀ l, l ∈ order.*2 → heartbeat h l ≤ heartbeat h best.
Proof.
  destruct order as [|[k peer] rest]; [done|]. intros _.
  cbn [fold_left pickPeer_step snd].
  destruct (loop_from_some h rest peer) as (best & Hfold & Hin & Hge & Hall).
  exists best. split_and!; [done| |].
  - cbn. destruct Hin as [->|Hin]; [left|by right].
  - intros l Hl. cbn in Hl. apply elem_of_cons in Hl as [->|Hl]; [done|by apply Hall].
Qed.

(** The values visited by [range] are the registered pointers. *)
Lemma visited_iff_registered p order l :
  range_order p order → l ∈ order.*2 ↔ ∃ k, peers p !! k = Some l.
Proof.
  unfold range_order. intros Hperm. rewrite Hperm. rewrite list_elem_of_fmap.
  split.
  - intros ([k l'] & -> & Hin). exists k. by apply elem_of_map_to_list in Hin.
  - intros [k Hk]. exists (k, l). split; [done|]. by apply elem_of_map_to_list.
Qed.

Lemma range_order_empty p order :
  range_order p order → peers p = ∅ ↔ order = [].
Proof.
  unfold range_order. intros Hperm. split.
  - intros Hempty. rewrite Hempty, map_to_list_empty in Hperm.
    by apply Permutation_nil_r in Hperm.
  - intros ->. symmetry in Hperm. apply Permutation_nil_r in Hperm.
    by apply map_to_list_empty_iff.
Qed.

(** [pickPeer] returns either a pointer and no error, or nil and the
    NotFound error; the latter exactly when it visited nothing. *)
Lemma pickPeer_shape h order :
  (order = [] ∧
     pickPeer h order = (None, Some (NotFound "no active peers found for %v")))
  ∨ (order ≠ [] ∧ ∃ best, pickPeer h order = (Some best, None)).
Proof.
  destruct order as [|entry rest]; [by left|right]. split; [done|].
  destruct (loop_from_nil h (entry :: rest)) as (best & Hfold & _); [done|].
  exists best. unfold pickPeer. by rewrite Hfold.
Qed.

End PickPeerFacts.

Module PickPeerClaims.
Import ClusterPeers PickPeerFacts.

(** C2. For every non-empty peer map and every order in which [range]
    may visit it, [pickPeer] succeeds without error and returns a
    registered peer whose last heartbeat is greater than or equal to that
    of every registered peer; a peer whose heartbeat is strictly greater
    than that of all the others is the one returned. *)
Theorem pickPeer_freshest (p : clusterPeers) (h : heap) order :
  range_order p order →
  peers p ≠ ∅ →
  ∃ best,
    pickPeer h order = (Some best, None)
    ∧ (∃ k, peers p !! k = Some best)
    ∧ (∀ k l, peers p !! k = Some l → heartbeat h l ≤ heartbeat h best)
    ∧ (∀ k l, peers p !! k = Some l →
         (∀ k' l', peers p !! k' = Some l' → l' ≠ l →
                   heartbeat h l' < heartbeat h l) →
         best = l).
Proof.
  intros Horder Hne.
  assert (order ≠ []) as Hcons by (by rewrite <- (range_order_empty p)).
  destruct (loop_from_nil h order Hcons) as (best & Hfold & Hin & Hmax).
  exists best. unfold pickPeer. rewrite Hfold.
  assert (∀ k l, peers p !! k = Some l → heartbeat h l ≤ heartbeat h best)
    as Hall.
  { intros k l Hk. apply Hmax. apply (visited_iff_registered p); eauto. }
  split_and!; [done| by apply (visited_iff_registered p order) |done|].
  intros k l Hk Hstrict.
  destruct (decide (best = l)) as [|Hdiff]; [done|exfalso].
  apply (visited_iff_registered p order best Horder) in Hin as [k' Hk'].
  specialize (Hstrict k' best Hk' Hdiff). specialize (Hall k l Hk). lia.
Qed.

Lemma pickPeer_freshest_witness :
  ∃ best,
    pickPeer Scenario.mem (map_to_list (peers Scenario.both)) = (Some best, None)
    ∧ (∃ k, peers Scenario.both !! k = Some best)
    ∧ (∀ k l, peers Scenario.both !! k = Some l →
              heartbeat Scenario.mem l ≤ heartbeat Scenario.mem best)
    ∧ (∀ k l, peers Scenario.both !! k = Some l →
         (∀ k' l', peers Scenario.both !! k' = Some l' → l' ≠ l →
                   heartbeat Scenario.mem l' < heartbeat Scenario.mem l) →
         best = l).
Proof.
  apply (pickPeer_freshest Scenario.both Scenario.mem).
  - unfold range_order. reflexivity.
  - intros Hempty. apply (f_equal (lookup "proxy-a")) in Hempty.
    vm_compute in Hempty. discriminate.
Defined.

(** The scenario of the two peers: B, with the later heartbeat, is picked;
    once B is removed A is picked; once both are removed nothing is. *)
Example scenario_picks_B :
  pickPeer Scenario.mem (map_to_list (peers Scenario.both)) = (Some 1%nat, None).
Proof. vm_compute. reflexivity. Qed.

Example scenario_picks_A_after_B_left :
  pickPeer Scenario.mem
    (map_to_list (peers (removePeer Scenario.both Scenario.connB)))
  = (Some 0%nat, None).
Proof. vm_compute. reflexivity. Qed.

Example scenario_picks_nothing_after_all_left :
  let nobody := removePeer (removePeer Scenario.both Scenario.connB) Scenario.connA in
  (pickPeer Scenario.mem (map_to_list (peers nobody))).1 = None
  ∧ GetStatus Scenario.threshold Scenario.mem (map_to_list (peers nobody))
      (106 * Scenario.second) = "offline".
Proof. vm_compute. split; reflexivity. Qed.

End PickPeerClaims.

(** ** An empty collection *)

Module EmptyClaims.
Import ClusterPeers PickPeerFacts.

Lemma pickPeer_nil h :
  pickPeer h [] = (None, Some (NotFound "no active peers found for %v")).
Proof. reflexivity. Qed.

Lemma status_is_one_of_two th now s :
  ClusterPeer.GetStatus th now s = "offline"
  ∨ ClusterPeer.GetStatus th now s = "online".
Proof. unfold ClusterPeer.GetStatus. cbn. case_bool_decide; auto. Qed.

(** C5. On an empty peer map [pickPeer] fails with a NotFound error and
    [clusterPeers.GetStatus] answers "offline"; on every peer map
    [GetStatus] answers one of the two status strings, so it never
    fails. *)
Theorem empty_pickPeer_NotFound_GetStatus_offline
    (p : clusterPeers) (h : heap) order th now :
  range_order p order →
  (peers p = ∅ →
     (∃ e, pickPeer h order = (None, Some e) ∧ IsNotFound e = true)
     ∧ GetStatus th h order now = "offline")
  ∧ (GetStatus th h order now = "offline"
     ∨ GetStatus th h order now = "online").
Proof.
  intros Horder. split.
  - intros Hempty. apply (range_order_empty p order Horder) in Hempty as ->.
    split; [|reflexivity]. eexists. split; [apply pickPeer_nil|reflexivity].
  - unfold GetStatus. destruct (pickPeer h order) as [[peer|] [err|]]; auto.
    apply status_is_one_of_two.
Qed.

Lemma empty_pickPeer_NotFound_GetStatus_offline_witness :
  ((∃ e, pickPeer Scenario.mem [] = (None, Some e) ∧ IsNotFound e = true)
   ∧ GetStatus Scenario.threshold Scenario.mem [] (200 * Scenario.second)
     = "offline")
  ∧ (GetStatus Scenario.threshold Scenario.mem [] (200 * Scenario.second)
       = "offline"
     ∨ GetStatus Scenario.threshold Scenario.mem [] (200 * Scenario.second)
       = "online").
Proof.
  assert (range_order (newClusterPeers "prod") []) as Horder.
  { unfold range_order. cbn. rewrite map_to_list_empty. reflexivity. }
  destruct (empty_pickPeer_NotFound_GetStatus_offline
              (newClusterPeers "prod") Scenario.mem [] Scenario.threshold
              (200 * Scenario.second) Horder) as [Hempty Htotal].
  split; [apply Hempty; reflexivity|exact Htotal].
Defined.

(** C9. On an empty peer map [clusterPeers.GetLastConnected] does not
    pass the error of [pickPeer] on: it returns the zero time. *)
Theorem empty_GetLastConnected_zero (p : clusterPeers) (h : heap) order :
  range_order p order →
  peers p = ∅ →
  GetLastConnected h order = time.zero.
Proof.
  intros Horder Hempty.
  apply (range_order_empty p order Horder) in Hempty as ->. reflexivity.
Qed.

Lemma empty_GetLastConnected_zero_witness :
  GetLastConnected Scenario.mem [] = time.zero.
Proof.
  apply (empty_GetLastConnected_zero (newClusterPeers "prod")).
  - unfold range_order. cbn. rewrite map_to_list_empty. reflexivity.
  - reflexivity.
Defined.

End EmptyClaims.

(** ** Liveness of one peer *)

Module StatusClaims.

(** Saturation does not change on which side of a threshold a duration
    lies, as long as the threshold is below the largest duration. *)
Lemma Sub_exceeds th t u :
  time.minDuration ≤ th < time.maxDuration →
  th < time.Sub t u ↔ th < t - u.
Proof.
  unfold time.Sub, time.minDuration, time.maxDuration. intros Hth. cbn zeta.
  repeat case_bool_decide; lia.
Qed.

(** C6. For a threshold within the range of durations, [GetStatus] is
    "offline" exactly when the time elapsed since the last heartbeat
    strictly exceeds the threshold and "online" otherwise, in particular
    when the elapsed time equals the threshold; [GetLastConnected] is the
    last heartbeat of the connection. *)
Theorem GetStatus_offline_iff_exceeds th now (s : clusterPeer) :
  time.minDuration ≤ th < time.maxDuration →
  let elapsed := now - services.GetLastHeartbeat (connInfo s) in
  (ClusterPeer.GetStatus th now s = "offline" ↔ th < elapsed)
  ∧ (ClusterPeer.GetStatus th now s = "online" ↔ elapsed ≤ th)
  ∧ (elapsed = th → ClusterPeer.GetStatus th now s = "online")
  ∧ ClusterPeer.GetLastConnected s = services.GetLastHeartbeat (connInfo s).
Proof.
  intros Hth elapsed.
  pose proof (Sub_exceeds th now (services.GetLastHeartbeat (connInfo s)) Hth)
    as Hsat.
  unfold ClusterPeer.GetStatus, RemoteSiteStatusOffline, RemoteSiteStatusOnline.
  cbn zeta. fold elapsed in Hsat.
  case_bool_decide as Hcmp; rewrite Hsat in Hcmp.
  - split_and!; [done| |lia|done]. split; [done|lia].
  - split_and!; [ |split; [lia|done]|done|done]. split; [done|lia].
Qed.

Lemma GetStatus_offline_iff_exceeds_witness :
  let s := Scenario.peer_of Scenario.connA 1 2 in
  let now := 125 * Scenario.second in
  let elapsed := now - services.GetLastHeartbeat (connInfo s) in
  (time.minDuration ≤ Scenario.threshold < time.maxDuration)
  ∧ elapsed = Scenario.threshold
  ∧ (ClusterPeer.GetStatus Scenario.threshold now s = "offline"
     ↔ Scenario.threshold < elapsed)
  ∧ (ClusterPeer.GetStatus Scenario.threshold now s = "online"
     ↔ elapsed ≤ Scenario.threshold)
  ∧ ClusterPeer.GetStatus Scenario.threshold now s = "online"
  ∧ ClusterPeer.GetLastConnected s = services.GetLastHeartbeat (connInfo s).
Proof.
  intros s now elapsed.
  assert (time.minDuration ≤ Scenario.threshold < time.maxDuration) as Hth.
  { vm_compute. split; [discriminate|reflexivity]. }
  destruct (GetStatus_offline_iff_exceeds Scenario.threshold now s Hth)
    as (Hoff & Hon & Hedge & Hlast).
  refine (conj Hth (conj _ (conj Hoff (conj Hon (conj _ Hlast))))).
  - reflexivity.
  - apply Hedge. reflexivity.
Defined.

(** The two sides of the boundary, with a threshold of 25 seconds and a
    last heartbeat at 100 seconds. *)
Example status_at_threshold :
  ClusterPeer.GetStatus Scenario.threshold (125 * Scenario.second)
    (Scenario.peer_of Scenario.connA 1 2) = "online".
Proof. reflexivity. Qed.

Example status_past_threshold :
  ClusterPeer.GetStatus Scenario.threshold (125 * Scenario.second + 1)
    (Scenario.peer_of Scenario.connA 1 2) = "offline".
Proof. reflexivity. Qed.

End StatusClaims.

(** ** Bookkeeping of the peer map *)

Module BookkeepingFacts.
Import ClusterPeers.

Lemma set_connInfo_at h l conn :
  set_connInfo h l conn l =
    {| log := log (h l); clt := clt (h l); accessPoint := accessPoint (h l);
       connInfo := conn; srv := srv (h l) |}.
Proof. unfold set_connInfo. by rewrite decide_True. Qed.

Lemma set_connInfo_other h l conn l' :
  l' ≠ l → set_connInfo h l conn l' = h l'.
Proof. intros Hne. unfold set_connInfo. by rewrite decide_False. Qed.

(** Two names of a map that files every pointer under the name of its
    connection never share a pointer. *)
Lemma keyed_by_name_no_alias p h k1 k2 l1 l2 :
  keyed_by_name p h →
  peers p !! k1 = Some l1 → peers p !! k2 = Some l2 → k1 ≠ k2 → l1 ≠ l2.
Proof.
  intros Hkeyed H1 H2 Hne ->. apply Hne.
  by rewrite <- (Hkeyed k1 l2 H1), <- (Hkeyed k2 l2 H2).
Qed.

Lemma keyed_by_name_new name h : keyed_by_name (newClusterPeers name) h.
Proof. intros k l Hk. cbn in Hk. by rewrite lookup_empty in Hk. Qed.

Lemma keyed_by_name_addPeer p h peer :
  keyed_by_name p h → keyed_by_name (addPeer p h peer) h.
Proof.
  intros Hkeyed k l. cbn. rewrite lookup_insert.
  case_decide as Hk; [|by apply Hkeyed]. by intros [= <-].
Qed.

Lemma keyed_by_name_removePeer p h conn :
  keyed_by_name p h → keyed_by_name (removePeer p conn) h.
Proof.
  intros Hkeyed k l. cbn. rewrite lookup_delete.
  case_decide; [done|by apply Hkeyed].
Qed.

Lemma keyed_by_name_updatePeer p h conn :
  keyed_by_name p h →
  keyed_by_name (updatePeer p h conn).1.2 (updatePeer p h conn).2.
Proof.
  intros Hkeyed. unfold updatePeer.
  destruct (peers p !! services.GetName conn) as [peer|] eqn:Hpeer; [|done].
  intros k l Hk. cbn in *.
  destruct (decide (l = peer)) as [->|Hne].
  - rewrite set_connInfo_at. cbn.
    by rewrite <- (Hkeyed _ _ Hk), <- (Hkeyed _ _ Hpeer).
  - rewrite set_connInfo_other by done. by apply Hkeyed.
Qed.

Lemma removePeer_lookup p conn k :
  peers (removePeer p conn) !! k =
    if decide (services.GetName conn = k) then None else peers p !! k.
Proof. cbn. apply lookup_delete. Qed.

End BookkeepingFacts.

Module BookkeepingClaims.
Import ClusterPeers PickPeerFacts BookkeepingFacts.

(** C7. [updatePeer] with a connection name that is not in the map
    returns false and leaves the map and every peer as they were.  With a
    name that is in the map it returns true, leaves the map as it was
    (the same pointers under the same names), and in the heap changes
    only the peer behind the pointer found, of which it replaces
    [connInfo] and keeps [clt], [accessPoint], [srv] and [log]; the peers
    filed under the other names are as they were. *)
Theorem updatePeer_frame (p : clusterPeers) (h : heap)
    (conn : services.TunnelConnection) :
  (peers p !! services.GetName conn = None →
     updatePeer p h conn = (false, p, h))
  ∧ (∀ peer, peers p !! services.GetName conn = Some peer →
       ∃ h',
         updatePeer p h conn = (true, p, h')
         ∧ connInfo (h' peer) = conn
         ∧ clt (h' peer) = clt (h peer)
         ∧ accessPoint (h' peer) = accessPoint (h peer)
         ∧ srv (h' peer) = srv (h peer)
         ∧ log (h' peer) = log (h peer)
         ∧ (∀ l, l ≠ peer → h' l = h l)
         ∧ (keyed_by_name p h →
              ∀ k l, k ≠ services.GetName conn → peers p !! k = Some l →
                     h' l = h l)).
Proof.
  split.
  - intros Hnone. unfold updatePeer. by rewrite Hnone.
  - intros peer Hpeer. exists (set_connInfo h peer conn).
    unfold updatePeer. rewrite Hpeer. rewrite set_connInfo_at. cbn.
    split_and!; try done.
    + intros l Hne. by apply set_connInfo_other.
    + intros Hkeyed k l Hk Hl. apply set_connInfo_other.
      by apply (keyed_by_name_no_alias p h k (services.GetName conn)).
Qed.

Lemma scenario_keyed_by_name : keyed_by_name Scenario.both Scenario.mem.
Proof.
  unfold Scenario.both.
  do 2 apply keyed_by_name_addPeer. apply keyed_by_name_new.
Qed.

Lemma updatePeer_frame_witness :
  updatePeer Scenario.both Scenario.mem Scenario.connC
    = (false, Scenario.both, Scenario.mem)
  ∧ ∃ h',
      updatePeer Scenario.both Scenario.mem Scenario.connA'
        = (true, Scenario.both, h')
      ∧ connInfo (h' 0%nat) = Scenario.connA'
      ∧ clt (h' 0%nat) = Some 1%nat
      ∧ accessPoint (h' 0%nat) = Some 2%nat
      ∧ (∀ l, l ≠ 0%nat → h' l = Scenario.mem l)
      ∧ h' 1%nat = Scenario.mem 1%nat.
Proof.
  split.
  - apply (proj1 (updatePeer_frame Scenario.both Scenario.mem Scenario.connC)).
    reflexivity.
  - destruct (proj2 (updatePeer_frame Scenario.both Scenario.mem Scenario.connA')
                0%nat eq_refl)
      as (h' & Hret & Hconn & Hclt & Hap & _ & _ & Hheap & Hothers).
    exists h'. split_and!; [exact Hret|exact Hconn|exact Hclt|exact Hap|exact Hheap|].
    apply (Hothers scenario_keyed_by_name "proxy-b"); [discriminate|reflexivity].
Defined.

(** C8. After [removePeer(conn)], whatever the heap has become and
    whatever the order of the visit, [pickPeer] returns only a pointer
    that is filed under a name other than that of [conn]; in a map that
    files every pointer under the name of its connection this is never
    the peer that was registered under the name of [conn].  [removePeer]
    with a name that is not in the map leaves the map as it was, and
    removing twice is removing once. *)
Theorem removePeer_then_pickPeer (p : clusterPeers)
    (conn : services.TunnelConnection) :
  (∀ h order picked,
     range_order (removePeer p conn) order →
     (pickPeer h order).1 = Some picked →
     (∃ k, k ≠ services.GetName conn ∧ peers p !! k = Some picked)
     ∧ (∀ h0 removed,
          keyed_by_name p h0 →
          peers p !! services.GetName conn = Some removed →
          picked ≠ removed))
  ∧ (peers p !! services.GetName conn = None → removePeer p conn = p)
  ∧ removePeer (removePeer p conn) conn = removePeer p conn.
Proof.
  split_and!.
  - intros h order picked Horder Hpicked.
    assert (∃ k, k ≠ services.GetName conn ∧ peers p !! k = Some picked)
      as (k & Hk & Hreg).
    { unfold pickPeer in Hpicked.
      destruct order as [|entry rest]; [done|].
      destruct (loop_from_nil h (entry :: rest)) as (best & Hfold & Hin & _);
        [done|].
      rewrite Hfold in Hpicked. injection Hpicked as <-.
      apply (visited_iff_registered _ _ _ Horder) in Hin as [k Hk].
      rewrite removePeer_lookup in Hk. case_decide; [done|]. eauto. }
    split; [eauto|].
    intros h0 removed Hkeyed Hremoved.
    by apply (keyed_by_name_no_alias p h0 k (services.GetName conn)).
  - intros Hnone. destruct p as [name m]. unfold removePeer. cbn in *.
    f_equal. by apply delete_id.
  - unfold removePeer. cbn. f_equal. apply delete_id, lookup_delete_eq.
Qed.

Lemma removePeer_then_pickPeer_witness :
  pickPeer Scenario.mem
    (map_to_list (peers (removePeer Scenario.both Scenario.connB)))
    = (Some 0%nat, None)
  ∧ (∃ k, k ≠ "proxy-b" ∧ peers Scenario.both !! k = Some 0%nat)
  ∧ 0%nat ≠ 1%nat
  ∧ removePeer Scenario.both Scenario.connC = Scenario.both
  ∧ removePeer (removePeer Scenario.both Scenario.connB) Scenario.connB
    = removePeer Scenario.both Scenario.connB.
Proof.
  destruct (removePeer_then_pickPeer Scenario.both Scenario.connB)
    as (Hpick & _ & Htwice).
  destruct (Hpick Scenario.mem
              (map_to_list (peers (removePeer Scenario.both Scenario.connB)))
              0%nat) as [Hreg Hnot]; [unfold range_order; reflexivity|reflexivity|].
  split_and!; [reflexivity|exact Hreg| | |exact Htwice].
  - apply (Hnot Scenario.mem 1%nat scenario_keyed_by_name). reflexivity.
  - apply (proj1 (proj2 (removePeer_then_pickPeer Scenario.both Scenario.connC))).
    reflexivity.
Defined.

End BookkeepingClaims.

(** ** Dialing through a peer *)

Module PeerDialFacts.
Import PeerDial.

(** Unfolds the run of a function body down to its trace. *)
Ltac run_body :=
  unfold Dial, Dial_body, Go.run, mbind, body_bind, Go.bind, Go.call,
    Go.defer, Go.ret; cbn.

(** The calls of [Dial] when the connect fails: nothing was opened and
    nothing is closed. *)
Lemma Dial_connect_fails o s from to err :
  dialed o = inr err →
  Dial o s from to =
    ((None, Some (Wrap err)),
     [Infof "[TUNNEL] forward connection to %v through the peer %v"
        [net.String to; services.GetProxyAddr (connInfo s)];
      DialWithDeadline (net.Network to) (services.GetProxyAddr (connInfo s))
        (srv s)]).
Proof.
  intros Hdial. run_body. rewrite Hdial. reflexivity.
Qed.

(** Whatever the collaborators answer, [Dial] closes the client it
    opened exactly once and the session it opened exactly once. *)
Lemma Dial_closes_what_it_opened o s from to :
  let tr := (Dial o s from to).2 in
  (∀ c, dialed o = inl c → occurrences (ClientClose c) tr = 1%nat)
  ∧ (∀ c se, dialed o = inl c → session o = inl se →
             occurrences (SessionClose se) tr = 1%nat)
  ∧ (∀ err c, dialed o = inr err → occurrences (ClientClose c) tr = 0%nat)
  ∧ (∀ err se, dialed o = inr err → occurrences (SessionClose se) tr = 0%nat)
  ∧ (∀ c err se, dialed o = inl c → session o = inr err →
                 occurrences (SessionClose se) tr = 0%nat).
Proof.
  destruct o as [[c|e1] [se|e2] [w|e3] [r|e4] [e5|]];
    run_body; unfold occurrences;
    split_and!; intros; simplify_eq;
    repeat (rewrite ?filter_cons, ?filter_nil; repeat case_decide; simplify_eq);
    try reflexivity.
Qed.

End PeerDialFacts.

Module PeerDialClaims.
Import PeerDial.

(** C1. What the code does on the success path of [clusterPeer.Dial]:
    when every collaborator succeeds, [Dial] returns the connection
    adapter that holds the session as its closer, and before it returns
    its two deferred calls have closed that session and the client. *)
Theorem Dial_success_closes_session_and_client
    (s : clusterPeer) (from to : net.Addr)
    (c : Client) (se : Session) (w : Writer) (r : Reader) :
  let o := {| dialed := inl c; session := inl se; stdin := inl w;
              stdout := inl r; subsystem_err := None |} in
  Dial o s from to =
    ((Some {| reader := r; writer := w; closer := se;
              localAddr := from; remoteAddr := to |}, None),
     [Infof "[TUNNEL] forward connection to %v through the peer %v"
        [net.String to; services.GetProxyAddr (connInfo s)];
      DialWithDeadline (net.Network to) (services.GetProxyAddr (connInfo s))
        (srv s);
      NewSession c;
      StdinPipe se;
      StdoutPipe se;
      RequestSubsystem se
        ("proxy:" +:+ net.String to +:+ "@"
           +:+ services.GetClusterName (connInfo s));
      SessionClose se;
      ClientClose c])
  ∧ occurrences (SessionClose se) (Dial o s from to).2 = 1%nat
  ∧ occurrences (ClientClose c) (Dial o s from to).2 = 1%nat.
Proof.
  intros o.
  destruct (PeerDialFacts.Dial_closes_what_it_opened o s from to)
    as (Hclient & Hsession & _).
  split_and!; [reflexivity|by apply (Hsession c)|by apply Hclient].
Qed.

(** C4. When the connect, the session and the two pipes succeed, [Dial]
    sends exactly one subsystem request, on the session it opened, and
    its name is "proxy:", the destination address, "@" and the cluster
    name of the peer's connection. *)
Theorem Dial_subsystem_request (o : outcomes) (s : clusterPeer)
    (from to : net.Addr) c se w r :
  dialed o = inl c → session o = inl se →
  stdin o = inl w → stdout o = inl r →
  subsystem_requests (Dial o s from to).2 =
    [RequestSubsystem se
       ("proxy:" +:+ net.String to +:+ "@"
          +:+ services.GetClusterName (connInfo s))].
Proof.
  destruct o as [d ss i ou [e|]]; cbn; intros -> -> -> ->; reflexivity.
Qed.

Lemma Dial_subsystem_request_witness :
  subsystem_requests
    (Dial {| dialed := inl 7%nat; session := inl 8%nat; stdin := inl 9%nat;
             stdout := inl 10%nat; subsystem_err := None |}
          (Scenario.peer_of Scenario.connA 1 2)
          Scenario.source Scenario.target).2
  = [RequestSubsystem 8%nat "proxy:10.0.0.5:22@prod"].
Proof.
  exact (Dial_subsystem_request
           {| dialed := inl 7%nat; session := inl 8%nat; stdin := inl 9%nat;
              stdout := inl 10%nat; subsystem_err := None |}
           (Scenario.peer_of Scenario.connA 1 2)
           Scenario.source Scenario.target 7%nat 8%nat 9%nat 10%nat
           eq_refl eq_refl eq_refl eq_refl).
Defined.

End PeerDialClaims.

(** ** Dialing in the local cluster *)

Module LocalSiteClaims.
Import LocalSite.

(** C3. With [recordingProxy] set, the body of [localSite.Dial] makes
    exactly one certificate-cache lookup, on the target address, and no
    direct network dial; with [recordingProxy] unset it makes no cache
    lookup and exactly one direct network dial, of the target.  [Dial]
    itself runs the body with [recordingProxy] set. *)
Theorem Dial_lookups_and_direct_dials (o : outcomes) (s : localSite)
    (from to : net.Addr) :
  (cache_lookups (Go.run (Dial_body true o s from to)).2
     = [CacheGet (net.String to)]
   ∧ direct_dials (Go.run (Dial_body true o s from to)).2 = [])
  ∧ (cache_lookups (Go.run (Dial_body false o s from to)).2 = []
     ∧ direct_dials (Go.run (Dial_body false o s from to)).2
       = [NetDial (net.Network to) (net.String to)])
  ∧ Dial o s from to = Go.run (Dial_body true o s from to).
Proof.
  destruct o as [[cert|e1] [fw|e2] [conn|e3] d]; repeat split; reflexivity.
Qed.

End LocalSiteClaims.

(** ** Construction of a peer *)

Module ConstructClaims.
Import Construct.

(** C10. [newClusterPeer] does not look at the error of
    [NewProxyDialer]: its result and its calls are the same whatever
    that error is, and when [NewProxyDialer] fails while [auth.NewClient]
    and [newAccessPoint] succeed, the client is built from the dialer
    handed back and the construction reports success. *)
Theorem newClusterPeer_ignores_dialer_error
    (srv0 : server) (conn : services.TunnelConnection)
    (dialer : ProxyDialer) (c : ClientI) (a : AccessPoint) :
  (∀ e e' ac ap,
     newClusterPeer {| proxyDialer := (dialer, e); authClient := ac;
                       newAccessPoint := ap |} srv0 conn
     = newClusterPeer {| proxyDialer := (dialer, e'); authClient := ac;
                         newAccessPoint := ap |} srv0 conn)
  ∧ (∀ failure,
       ∃ peer,
         newClusterPeer {| proxyDialer := (dialer, Some failure);
                           authClient := (c, None);
                           newAccessPoint := (a, None) |} srv0 conn
         = ((Some peer, None),
            [NewProxyDialer srv0
               {| srv := srv0; connInfo := conn;
                  log := {| fields := [("cluster", services.GetClusterName conn);
                                       ("side", "server")] |};
                  clt := None; accessPoint := None |};
             NewClient "http://stub:0" dialer;
             NewAccessPoint c ["reverse"; services.GetClusterName conn]])
         ∧ clt peer = c ∧ accessPoint peer = a
         ∧ connInfo peer = conn ∧ srv peer = srv0).
Proof.
  split.
  - intros e e' [c' ec] [a' ea]. reflexivity.
  - intros failure. eexists. split; [reflexivity|]. by cbn.
Qed.

End ConstructClaims.

(** * Further properties *)

(** ** More on peer selection *)

Module SelectionFacts.
Import ClusterPeers PickPeerFacts.

(** On a non-empty map the pick is a registered pointer of maximal
    heartbeat. *)
Lemma pickPeer_max (p : clusterPeers) (h : heap) order :
  range_order p order → peers p ≠ ∅ →
  ∃ best,
    pickPeer h order = (Some best, None)
    ∧ (∃ k, peers p !! k = Some best)
    ∧ ∀ k l, peers p !! k = Some l → heartbeat h l ≤ heartbeat h best.
Proof.
  intros Horder Hne.
  assert (order ≠ []) as Hcons by (by rewrite <- (range_order_empty p)).
  destruct (loop_from_nil h order Hcons) as (best & Hfold & Hin & Hmax).
  exists best. unfold pickPeer. rewrite Hfold. split_and!; [done| |].
  - by apply (visited_iff_registered p order).
  - intros k l Hk. apply Hmax. apply (visited_iff_registered p); eauto.
Qed.

(** A registered pointer that strictly beats every other one is the pick. *)
Lemma pickPeer_unique_max (p : clusterPeers) (h : heap) order k l :
  range_order p order → peers p !! k = Some l →
  (∀ k' l', peers p !! k' = Some l' → l' ≠ l → heartbeat h l' < heartbeat h l) →
  pickPeer h order = (Some l, None).
Proof.
  intros Horder Hk Hstrict.
  destruct (pickPeer_max p h order Horder) as (best & Hpick & [k' Hk'] & Hmax).
  { intros Hempty. by rewrite Hempty, lookup_empty in Hk. }
  rewrite Hpick. destruct (decide (best = l)) as [->|Hne]; [done|exfalso].
  specialize (Hstrict k' best Hk' Hne). specialize (Hmax k l Hk). lia.
Qed.

(** The loop keeps its current peer unless a strictly later heartbeat
    comes by, so it ends on the first of the entries of maximal heartbeat. *)
Lemma loop_first_max h order current best :
  fold_left (pickPeer_step h) order (Some current) = Some best →
  (best = current ∧ ∀ e, e ∈ order → heartbeat h e.2 ≤ heartbeat h current)
  ∨ (∃ pre k post,
       order = pre ++ (k, best) :: post
       ∧ heartbeat h current < heartbeat h best
       ∧ (∀ e, e ∈ pre → heartbeat h e.2 < heartbeat h best)
       ∧ (∀ e, e ∈ post → heartbeat h e.2 ≤ heartbeat h best)).
Proof.
  revert current. induction order as [|[k peer] rest IH]; intros current.
  - cbn. intros [= <-]. left. split; [done|]. intros e He.
    by apply elem_of_nil in He.
  - cbn [fold_left pickPeer_step snd].
    destruct (time.After _ _) eqn:Hlater.
    + apply After_spec in Hlater. fold (heartbeat h peer) in Hlater.
      fold (heartbeat h current) in Hlater.
      intros Hfold. right.
      destruct (IH peer Hfold) as [[-> Hrest]|(pre & k' & post & -> & Hlt & Hpre & Hpost)].
      * exists [], k, rest. split_and!; [done|done| |done].
        intros e He. by apply elem_of_nil in He.
      * exists ((k, peer) :: pre), k', post. split_and!; [done|lia| |done].
        intros e He. apply elem_of_cons in He as [->|He]; [done|by apply Hpre].
    + apply not_true_iff_false in Hlater. rewrite After_spec in Hlater.
      fold (heartbeat h peer) in Hlater. fold (heartbeat h current) in Hlater.
      intros Hfold.
      destruct (IH current Hfold) as [[-> Hrest]|(pre & k' & post & -> & Hlt & Hpre & Hpost)].
      * left. split; [done|]. intros e He.
        apply elem_of_cons in He as [->|He]; [cbn; lia|by apply Hrest].
      * right. exists ((k, peer) :: pre), k', post. split_and!; [done|done| |done].
        intros e He. apply elem_of_cons in He as [->|He]; [cbn; lia|by apply Hpre].
Qed.

(** The saturated difference shrinks when the heartbeat grows. *)
Lemma Sub_antitone now t u : t ≤ u → time.Sub now u ≤ time.Sub now t.
Proof.
  unfold time.Sub, time.minDuration, time.maxDuration. intros Hle. cbn zeta.
  repeat case_bool_decide; lia.
Qed.

Lemma status_online_iff th now s :
  ClusterPeer.GetStatus th now s = "online"
  ↔ time.Sub now (services.GetLastHeartbeat (connInfo s)) ≤ th.
Proof.
  unfold ClusterPeer.GetStatus, RemoteSiteStatusOffline, RemoteSiteStatusOnline.
  cbn zeta. case_bool_decide; split; (done || lia).
Qed.

End SelectionFacts.

Module SelectionExtras.
Import ClusterPeers PickPeerFacts SelectionFacts.

(** X1. The peer that [pickPeer] returns is the first entry, in the order
    of the visit, among those of maximal heartbeat: every entry visited
    before it has a strictly earlier heartbeat, no entry visited after it
    has a later one. *)
Theorem pickPeer_first_of_the_freshest (h : heap) order best :
  pickPeer h order = (Some best, None) →
  ∃ pre k post,
    order = pre ++ (k, best) :: post
    ∧ (∀ e, e ∈ pre → heartbeat h e.2 < heartbeat h best)
    ∧ (∀ e, e ∈ post → heartbeat h e.2 ≤ heartbeat h best).
Proof.
  unfold pickPeer. destruct order as [|[k peer] rest]; [done|].
  cbn [fold_left pickPeer_step snd].
  destruct (fold_left _ rest (Some peer)) as [b|] eqn:Hfold; [|done].
  intros [= ->].
  destruct (loop_first_max h rest peer best Hfold)
    as [[-> Hrest]|(pre & k' & post & -> & Hlt & Hpre & Hpost)].
  - exists [], k, rest. split_and!; [done| |done].
    intros e He. by apply elem_of_nil in He.
  - exists ((k, peer) :: pre), k', post. split_and!; [done| |done].
    intros e He. apply elem_of_cons in He as [->|He]; [done|by apply Hpre].
Qed.

Lemma pickPeer_first_of_the_freshest_witness :
  ∃ pre k post,
    [("x", 0%nat); ("y", 1%nat); ("z", 2%nat)] = pre ++ (k, 1%nat) :: post
    ∧ (∀ e, e ∈ pre → heartbeat Scenario.mem e.2 < heartbeat Scenario.mem 1%nat)
    ∧ (∀ e, e ∈ post → heartbeat Scenario.mem e.2 ≤ heartbeat Scenario.mem 1%nat).
Proof.
  apply (pickPeer_first_of_the_freshest Scenario.mem
           [("x", 0%nat); ("y", 1%nat); ("z", 2%nat)] 1%nat).
  reflexivity.
Defined.

(** X2. What [clusterPeers.GetLastConnected] and [clusterPeers.GetStatus]
    return does not depend on the order in which [range] visits the map,
    although the peer picked may. *)
Theorem status_and_last_connected_order_independent
    (p : clusterPeers) (h : heap) order1 order2 th now :
  range_order p order1 → range_order p order2 →
  GetLastConnected h order1 = GetLastConnected h order2
  ∧ GetStatus th h order1 now = GetStatus th h order2 now.
Proof.
  intros H1 H2. destruct (decide (peers p = ∅)) as [Hempty|Hne].
  - pose proof (proj1 (range_order_empty p order1 H1) Hempty) as ->.
    pose proof (proj1 (range_order_empty p order2 H2) Hempty) as ->. done.
  - destruct (pickPeer_max p h order1 H1 Hne) as (b1 & Hp1 & [k1 Hk1] & Hmax1).
    destruct (pickPeer_max p h order2 H2 Hne) as (b2 & Hp2 & [k2 Hk2] & Hmax2).
    unfold GetLastConnected, GetStatus. rewrite Hp1, Hp2.
    assert (heartbeat h b1 = heartbeat h b2) as Heq.
    { specialize (Hmax1 k2 b2 Hk2). specialize (Hmax2 k1 b1 Hk1). lia. }
    unfold heartbeat in Heq.
    unfold ClusterPeer.GetLastConnected, ClusterPeer.GetStatus.
    by rewrite Heq.
Qed.

Lemma status_and_last_connected_order_independent_witness :
  let o1 := map_to_list (peers Scenario.both) in
  let o2 := reverse (map_to_list (peers Scenario.both)) in
  o1 ≠ o2
  ∧ GetLastConnected Scenario.mem o1 = GetLastConnected Scenario.mem o2
  ∧ GetStatus Scenario.threshold Scenario.mem o1 (120 * Scenario.second)
    = GetStatus Scenario.threshold Scenario.mem o2 (120 * Scenario.second).
Proof.
  intros o1 o2. split; [vm_compute; discriminate|].
  apply (status_and_last_connected_order_independent Scenario.both).
  - unfold range_order. reflexivity.
  - unfold range_order, o2. apply reverse_Permutation.
Defined.

End SelectionExtras.

(** ** What the collection delegates *)

Module DelegationExtras.
Import ClusterPeers PickPeerFacts SelectionFacts.

(** X3. On a non-empty peer map [clusterPeers.GetLastConnected] is the
    latest heartbeat of the registered peers: it is the heartbeat of one of
    them and no registered peer has a later one. *)
Theorem GetLastConnected_latest_heartbeat (p : clusterPeers) (h : heap) order :
  range_order p order → peers p ≠ ∅ →
  (∃ k l, peers p !! k = Some l
          ∧ GetLastConnected h order = services.GetLastHeartbeat (connInfo (h l)))
  ∧ ∀ k l, peers p !! k = Some l →
           services.GetLastHeartbeat (connInfo (h l)) ≤ GetLastConnected h order.
Proof.
  intros Horder Hne.
  destruct (pickPeer_max p h order Horder Hne) as (best & Hpick & [k Hk] & Hmax).
  unfold GetLastConnected. rewrite Hpick. split.
  - by exists k, best.
  - intros k' l Hl. apply (Hmax k' l Hl).
Qed.

Lemma GetLastConnected_latest_heartbeat_witness :
  GetLastConnected Scenario.mem (map_to_list (peers Scenario.both))
    = 105 * Scenario.second
  ∧ ∀ k l, peers Scenario.both !! k = Some l →
           services.GetLastHeartbeat (connInfo (Scenario.mem l))
           ≤ GetLastConnected Scenario.mem (map_to_list (peers Scenario.both)).
Proof.
  split; [reflexivity|].
  apply (GetLastConnected_latest_heartbeat Scenario.both).
  - unfold range_order. reflexivity.
  - intros Hempty. apply (f_equal (lookup "proxy-a")) in Hempty.
    vm_compute in Hempty. discriminate.
Defined.

(** X4. [clusterPeers.GetStatus] is "online" exactly when some registered
    peer is online by its own [GetStatus]; on every peer map, the empty one
    included. *)
Theorem GetStatus_online_iff_some_peer_online
    (p : clusterPeers) (h : heap) order th now :
  range_order p order →
  GetStatus th h order now = "online"
  ↔ ∃ k l, peers p !! k = Some l
           ∧ ClusterPeer.GetStatus th now (h l) = "online".
Proof.
  intros Horder. destruct (decide (peers p = ∅)) as [Hempty|Hne].
  - pose proof (proj1 (range_order_empty p order Horder) Hempty) as ->.
    split; [done|]. intros (k & l & Hk & _).
    by rewrite Hempty, lookup_empty in Hk.
  - destruct (pickPeer_max p h order Horder Hne) as (best & Hpick & [k Hk] & Hmax).
    unfold GetStatus. rewrite Hpick. split.
    + intros Hon. by exists k, best.
    + intros (k' & l & Hl & Hon). apply status_online_iff.
      apply status_online_iff in Hon.
      pose proof (Sub_antitone now _ _ (Hmax k' l Hl)) as Hsub.
      unfold heartbeat in Hsub. lia.
Qed.

Lemma GetStatus_online_iff_some_peer_online_witness :
  GetStatus Scenario.threshold Scenario.mem (map_to_list (peers Scenario.both))
    (128 * Scenario.second) = "online"
  ∧ ClusterPeer.GetStatus Scenario.threshold (128 * Scenario.second)
      (Scenario.mem 0%nat) = "offline"
  ∧ ∃ k l, peers Scenario.both !! k = Some l
           ∧ ClusterPeer.GetStatus Scenario.threshold (128 * Scenario.second)
               (Scenario.mem l) = "online".
Proof.
  assert (range_order Scenario.both (map_to_list (peers Scenario.both)))
    as Horder by (unfold range_order; reflexivity).
  split; [reflexivity|]. split; [reflexivity|].
  apply (GetStatus_online_iff_some_peer_online Scenario.both Scenario.mem _
           Scenario.threshold (128 * Scenario.second) Horder).
  reflexivity.
Defined.

(** X5. [clusterPeers.GetClient] and [clusterPeers.CachingAccessPoint]
    fail with the wrapped NotFound error of [pickPeer] and a nil handle
    when no peer is registered; otherwise they return, without error, the
    client and the access point of one registered peer of latest
    heartbeat. *)
Theorem GetClient_and_CachingAccessPoint_of_freshest
    (p : clusterPeers) (h : heap) order :
  range_order p order →
  (peers p = ∅ →
     ∃ e, IsNotFound e = true
          ∧ GetClient h order = (None, Some (Wrap e))
          ∧ CachingAccessPoint h order = (None, Some (Wrap e)))
  ∧ (peers p ≠ ∅ →
       ∃ k best,
         peers p !! k = Some best
         ∧ (∀ k' l, peers p !! k' = Some l → heartbeat h l ≤ heartbeat h best)
         ∧ GetClient h order = (clt (h best), None)
         ∧ CachingAccessPoint h order = (accessPoint (h best), None)).
Proof.
  intros Horder. split.
  - intros Hempty. apply (range_order_empty p order Horder) in Hempty as ->.
    eexists. split_and!; [|reflexivity|reflexivity]. reflexivity.
  - intros Hne.
    destruct (pickPeer_max p h order Horder Hne) as (best & Hpick & [k Hk] & Hmax).
    exists k, best. unfold GetClient, CachingAccessPoint. rewrite Hpick.
    by split_and!.
Qed.

Lemma GetClient_and_CachingAccessPoint_of_freshest_witness :
  (∃ e, IsNotFound e = true
        ∧ GetClient Scenario.mem [] = (None, Some (Wrap e))
        ∧ CachingAccessPoint Scenario.mem [] = (None, Some (Wrap e)))
  ∧ ∃ k best,
      peers Scenario.both !! k = Some best
      ∧ (∀ k' l, peers Scenario.both !! k' = Some l →
                 heartbeat Scenario.mem l ≤ heartbeat Scenario.mem best)
      ∧ GetClient Scenario.mem (map_to_list (peers Scenario.both))
        = (clt (Scenario.mem best), None)
      ∧ CachingAccessPoint Scenario.mem (map_to_list (peers Scenario.both))
        = (accessPoint (Scenario.mem best), None).
Proof.
  split.
  - apply (proj1 (GetClient_and_CachingAccessPoint_of_freshest
                    (newClusterPeers "prod") Scenario.mem []
                    (reflexivity _))).
    reflexivity.
  - apply (proj2 (GetClient_and_CachingAccessPoint_of_freshest
                    Scenario.both Scenario.mem _ (reflexivity _))).
    intros Hempty. apply (f_equal (lookup "proxy-a")) in Hempty.
    vm_compute in Hempty. discriminate.
Defined.

(** X6. [clusterPeers.Dial] without a registered peer returns a nil
    connection and the wrapped NotFound error and calls no collaborator;
    with peers it does what [clusterPeer.Dial] of one registered peer of
    latest heartbeat does. *)
Theorem clusterPeers_Dial_through_freshest
    (p : clusterPeers) (h : heap) order (o : PeerDial.outcomes)
    (from to : net.Addr) :
  range_order p order →
  (peers p = ∅ →
     ∃ e, IsNotFound e = true
          ∧ PeersDial.Dial o h order from to = ((None, Some (Wrap e)), []))
  ∧ (peers p ≠ ∅ →
       ∃ k best,
         peers p !! k = Some best
         ∧ (∀ k' l, peers p !! k' = Some l → heartbeat h l ≤ heartbeat h best)
         ∧ PeersDial.Dial o h order from to = PeerDial.Dial o (h best) from to).
Proof.
  intros Horder. split.
  - intros Hempty. apply (range_order_empty p order Horder) in Hempty as ->.
    eexists. split; [|reflexivity]. reflexivity.
  - intros Hne.
    destruct (pickPeer_max p h order Horder Hne) as (best & Hpick & [k Hk] & Hmax).
    exists k, best. unfold PeersDial.Dial. rewrite Hpick. by split_and!.
Qed.

Lemma clusterPeers_Dial_through_freshest_witness :
  let o := {| PeerDial.dialed := inl 7%nat; PeerDial.session := inl 8%nat;
              PeerDial.stdin := inl 9%nat; PeerDial.stdout := inl 10%nat;
              PeerDial.subsystem_err := None |} in
  (∃ e, IsNotFound e = true
        ∧ PeersDial.Dial o Scenario.mem [] Scenario.source Scenario.target
          = ((None, Some (Wrap e)), []))
  ∧ ∃ k best,
      peers Scenario.both !! k = Some best
      ∧ (∀ k' l, peers Scenario.both !! k' = Some l →
                 heartbeat Scenario.mem l ≤ heartbeat Scenario.mem best)
      ∧ PeersDial.Dial o Scenario.mem (map_to_list (peers Scenario.both))
          Scenario.source Scenario.target
        = PeerDial.Dial o (Scenario.mem best) Scenario.source Scenario.target.
Proof.
  intros o. split.
  - apply (proj1 (clusterPeers_Dial_through_freshest
                    (newClusterPeers "prod") Scenario.mem [] o
                    Scenario.source Scenario.target (reflexivity _))).
    reflexivity.
  - apply (proj2 (clusterPeers_Dial_through_freshest
                    Scenario.both Scenario.mem _ o
                    Scenario.source Scenario.target (reflexivity _))).
    intros Hempty. apply (f_equal (lookup "proxy-a")) in Hempty.
    vm_compute in Hempty. discriminate.
Defined.

End DelegationExtras.

(** ** How the bookkeeping operations compose *)

Module BookkeepingExtras.
Import ClusterPeers PickPeerFacts SelectionFacts BookkeepingFacts.

(** X7. The peer map files every pointer under the name of its own
    connection: [newClusterPeers] starts so, and [addPeer], [removePeer]
    and [updatePeer] keep it so.  In such a map no pointer is filed under
    two names. *)
Theorem bookkeeping_keeps_names (p : clusterPeers) (h : heap) :
  (∀ name, keyed_by_name (newClusterPeers name) h)
  ∧ (keyed_by_name p h →
       (∀ peer, keyed_by_name (addPeer p h peer) h)
       ∧ (∀ conn, keyed_by_name (removePeer p conn) h)
       ∧ (∀ conn, keyed_by_name (updatePeer p h conn).1.2 (updatePeer p h conn).2)
       ∧ (∀ k1 k2 l, peers p !! k1 = Some l → peers p !! k2 = Some l → k1 = k2)).
Proof.
  split; [intros name; apply keyed_by_name_new|].
  intros Hkeyed. split_and!.
  - intros peer. by apply keyed_by_name_addPeer.
  - intros conn. by apply keyed_by_name_removePeer.
  - intros conn. by apply keyed_by_name_updatePeer.
  - intros k1 k2 l H1 H2. destruct (decide (k1 = k2)) as [|Hne]; [done|].
    by destruct (keyed_by_name_no_alias p h k1 k2 l l Hkeyed H1 H2 Hne).
Qed.

Lemma bookkeeping_keeps_names_witness :
  keyed_by_name Scenario.both Scenario.mem
  ∧ keyed_by_name (addPeer Scenario.both Scenario.mem 0%nat) Scenario.mem
  ∧ keyed_by_name (removePeer Scenario.both Scenario.connA) Scenario.mem
  ∧ keyed_by_name
      (updatePeer Scenario.both Scenario.mem Scenario.connA').1.2
      (updatePeer Scenario.both Scenario.mem Scenario.connA').2.
Proof.
  assert (keyed_by_name Scenario.both Scenario.mem) as Hboth.
  { unfold Scenario.both.
    apply (proj2 (bookkeeping_keeps_names _ Scenario.mem)).
    - apply (proj2 (bookkeeping_keeps_names _ Scenario.mem)).
      apply (proj1 (bookkeeping_keeps_names Scenario.both Scenario.mem)). }
  destruct (proj2 (bookkeeping_keeps_names Scenario.both Scenario.mem) Hboth)
    as (Hadd & Hremove & Hupdate & _).
  split_and!; [exact Hboth|apply Hadd|apply Hremove|apply Hupdate].
Defined.

(** X8. [addPeer] files the pointer under the name of its connection,
    replacing what was there, and leaves the other names alone.  An
    [updatePeer] for that name then finds it, and if the name was free a
    [removePeer] of that connection gives the map back as it was. *)
Theorem addPeer_registers (p : clusterPeers) (h : heap) (peer : loc) :
  let name := services.GetName (connInfo (h peer)) in
  peers (addPeer p h peer) !! name = Some peer
  ∧ (∀ k, k ≠ name → peers (addPeer p h peer) !! k = peers p !! k)
  ∧ (∀ conn, services.GetName conn = name →
       (updatePeer (addPeer p h peer) h conn).1.1 = true)
  ∧ (peers p !! name = None →
       removePeer (addPeer p h peer) (connInfo (h peer)) = p).
Proof.
  intros name. split_and!.
  - cbn. apply lookup_insert_eq.
  - intros k Hk. cbn. by apply lookup_insert_ne.
  - intros conn Hconn. unfold updatePeer. rewrite Hconn. cbn.
    by rewrite lookup_insert_eq.
  - intros Hfree. destruct p as [cluster m]. unfold removePeer, addPeer. cbn in *.
    f_equal. rewrite delete_insert_eq. by apply delete_id.
Qed.

Lemma addPeer_registers_witness :
  let one := addPeer (newClusterPeers "prod") Scenario.mem 0%nat in
  peers (addPeer one Scenario.mem 1%nat) !! "proxy-b" = Some 1%nat
  ∧ peers (addPeer one Scenario.mem 1%nat) !! "proxy-a" = Some 0%nat
  ∧ (updatePeer (addPeer one Scenario.mem 1%nat) Scenario.mem Scenario.connB).1.1
    = true
  ∧ removePeer (addPeer one Scenario.mem 1%nat) Scenario.connB = one.
Proof.
  intros one.
  destruct (addPeer_registers one Scenario.mem 1%nat)
    as (Hin & Hothers & Hupdate & Hback).
  split_and!.
  - exact Hin.
  - transitivity (peers one !! "proxy-a"); [|reflexivity].
    apply (Hothers "proxy-a"). discriminate.
  - apply Hupdate. reflexivity.
  - apply Hback. reflexivity.
Defined.

(** X9. A heartbeat update that puts a registered peer strictly ahead of
    all the others makes it the next pick, whatever the order of the
    visit, and [GetLastConnected] then is the heartbeat of the update. *)
Theorem updatePeer_ahead_is_picked (p : clusterPeers) (h : heap)
    (conn : services.TunnelConnection) (peer : loc) order :
  peers p !! services.GetName conn = Some peer →
  (∀ k l, peers p !! k = Some l → l ≠ peer →
          heartbeat h l < services.GetLastHeartbeat conn) →
  range_order (updatePeer p h conn).1.2 order →
  pickPeer (updatePeer p h conn).2 order = (Some peer, None)
  ∧ GetLastConnected (updatePeer p h conn).2 order
    = services.GetLastHeartbeat conn.
Proof.
  intros Hpeer Hahead. unfold updatePeer. rewrite Hpeer. cbn. intros Horder.
  assert (pickPeer (set_connInfo h peer conn) order = (Some peer, None)) as Hpick.
  { apply (pickPeer_unique_max p _ order (services.GetName conn)); [done|done|].
    intros k l Hl Hne. unfold heartbeat.
    rewrite set_connInfo_at, set_connInfo_other by done. cbn.
    by apply (Hahead k). }
  split; [done|]. unfold GetLastConnected. rewrite Hpick.
  unfold ClusterPeer.GetLastConnected. by rewrite set_connInfo_at.
Qed.

Lemma updatePeer_ahead_is_picked_witness :
  let order := map_to_list (peers Scenario.both) in
  pickPeer Scenario.mem order = (Some 1%nat, None)
  ∧ pickPeer (updatePeer Scenario.both Scenario.mem Scenario.connA').2 order
    = (Some 0%nat, None)
  ∧ GetLastConnected (updatePeer Scenario.both Scenario.mem Scenario.connA').2 order
    = 110 * Scenario.second.
Proof.
  intros order. split; [reflexivity|].
  apply (updatePeer_ahead_is_picked Scenario.both Scenario.mem Scenario.connA'
           0%nat order).
  - reflexivity.
  - intros k l Hl Hne.
    destruct (decide (k = "proxy-a")) as [->|Ha].
    { vm_compute in Hl. congruence. }
    destruct (decide (k = "proxy-b")) as [->|Hb].
    { vm_compute in Hl. injection Hl as <-. reflexivity. }
    unfold Scenario.both, addPeer in Hl. cbn in Hl.
    rewrite !lookup_insert_ne, lookup_empty in Hl by done. discriminate.
  - unfold range_order. reflexivity.
Defined.

(** X10. A peer added with a heartbeat strictly later than that of every
    other registered peer is the next pick, whatever the order of the
    visit. *)
Theorem addPeer_ahead_is_picked (p : clusterPeers) (h : heap) (peer : loc) order :
  (∀ k l, peers p !! k = Some l → l ≠ peer →
          heartbeat h l < heartbeat h peer) →
  range_order (addPeer p h peer) order →
  pickPeer h order = (Some peer, None).
Proof.
  intros Hahead Horder.
  apply (pickPeer_unique_max (addPeer p h peer) h order
           (services.GetName (connInfo (h peer)))); [done| |].
  - cbn. apply lookup_insert_eq.
  - intros k l Hl Hne. cbn in Hl. rewrite lookup_insert in Hl.
    case_decide; [congruence|]. by apply (Hahead k).
Qed.

Lemma addPeer_ahead_is_picked_witness :
  let one := addPeer (newClusterPeers "prod") Scenario.mem 0%nat in
  pickPeer Scenario.mem (map_to_list (peers one)) = (Some 0%nat, None)
  ∧ pickPeer Scenario.mem (map_to_list (peers (addPeer one Scenario.mem 1%nat)))
    = (Some 1%nat, None).
Proof.
  intros one. split; [reflexivity|].
  apply (addPeer_ahead_is_picked one Scenario.mem 1%nat).
  - intros k l Hl Hne.
    destruct (decide (k = "proxy-a")) as [->|Ha].
    { vm_compute in Hl. injection Hl as <-. reflexivity. }
    unfold one, addPeer in Hl. cbn in Hl.
    rewrite lookup_insert_ne, lookup_empty in Hl by done. discriminate.
  - unfold range_order. reflexivity.
Defined.

(** X11. Once [removePeer] has dropped a connection, [updatePeer] for a
    connection of that name returns false and changes neither the map nor
    any peer: a late heartbeat does not bring the peer back. *)
Theorem removePeer_then_updatePeer (p : clusterPeers) (h : heap)
    (conn late : services.TunnelConnection) :
  services.GetName late = services.GetName conn →
  updatePeer (removePeer p conn) h late = (false, removePeer p conn, h).
Proof.
  intros Hname. unfold updatePeer. rewrite Hname.
  rewrite removePeer_lookup. by rewrite decide_True.
Qed.

Lemma removePeer_then_updatePeer_witness :
  updatePeer (removePeer Scenario.both Scenario.connA) Scenario.mem Scenario.connA'
  = (false, removePeer Scenario.both Scenario.connA, Scenario.mem).
Proof.
  apply (removePeer_then_updatePeer Scenario.both Scenario.mem
           Scenario.connA Scenario.connA').
  reflexivity.
Defined.

End BookkeepingExtras.

(** ** More on dialing through a peer *)

Module PeerDialExtras.
Import PeerDial.

(** X12. [clusterPeer.Dial] returns a connection exactly when the connect,
    the session, the two pipes and the subsystem request all succeed;
    otherwise it returns a nil connection and the wrapped error of the
    first step that failed. *)
Theorem Dial_connection_iff_all_succeed (o : outcomes) (s : clusterPeer)
    (from to : net.Addr) :
  let res := (Dial o s from to).1 in
  ((∃ conn, res = (Some conn, None))
   ↔ ∃ c se w r, dialed o = inl c ∧ session o = inl se ∧ stdin o = inl w
                 ∧ stdout o = inl r ∧ subsystem_err o = None)
  ∧ (∀ e, dialed o = inr e → res = (None, Some (Wrap e)))
  ∧ (∀ c e, dialed o = inl c → session o = inr e → res = (None, Some (Wrap e)))
  ∧ (∀ c se e, dialed o = inl c → session o = inl se → stdin o = inr e →
       res = (None, Some (Wrap e)))
  ∧ (∀ c se w e, dialed o = inl c → session o = inl se → stdin o = inl w →
       stdout o = inr e → res = (None, Some (Wrap e)))
  ∧ (∀ c se w r e, dialed o = inl c → session o = inl se → stdin o = inl w →
       stdout o = inl r → subsystem_err o = Some e →
       res = (None, Some (Wrap e))).
Proof.
  destruct o as [[c|e1] [se|e2] [w|e3] [r|e4] [e5|]]; cbn;
    (split; [split; [intros [conn Hres]; try discriminate; eauto 10
                    |intros (? & ? & ? & ? & ? & ? & ? & ? & ?);
                     try discriminate; eauto]
            |split_and!; intros; simplify_eq; reflexivity]).
Qed.

Lemma Dial_connection_iff_all_succeed_witness :
  let o := {| dialed := inl 7%nat; session := inl 8%nat;
              stdin := inr (Failure "stdin"); stdout := inl 10%nat;
              subsystem_err := None |} in
  (Dial o (Scenario.peer_of Scenario.connA 1 2)
     Scenario.source Scenario.target).1
  = (None, Some (Wrap (Failure "stdin"))).
Proof.
  intros o.
  destruct (Dial_connection_iff_all_succeed o
              (Scenario.peer_of Scenario.connA 1 2)
              Scenario.source Scenario.target)
    as (_ & _ & _ & Hstdin & _).
  apply (Hstdin 7%nat 8%nat); reflexivity.
Defined.

(** X13. The deferred closes of [clusterPeer.Dial] are the last calls it
    makes, and the session is closed before the client: when both were
    opened the calls end with the close of the session and then that of
    the client, when only the client was opened they end with its close,
    and when the connect failed nothing is closed. *)
Theorem Dial_closes_last_session_first (o : outcomes) (s : clusterPeer)
    (from to : net.Addr) :
  let tr := (Dial o s from to).2 in
  (∀ c se, dialed o = inl c → session o = inl se →
     ∃ calls, tr = calls ++ [SessionClose se; ClientClose c]
              ∧ Forall (fun e => PeersDial.is_Close e = false) calls)
  ∧ (∀ c err, dialed o = inl c → session o = inr err →
       ∃ calls, tr = calls ++ [ClientClose c]
                ∧ Forall (fun e => PeersDial.is_Close e = false) calls)
  ∧ (∀ err, dialed o = inr err →
       Forall (fun e => PeersDial.is_Close e = false) tr).
Proof.
  destruct o as [[c|e1] [se|e2] [w|e3] [r|e4] [e5|]]; cbn;
    split_and!; intros; simplify_eq;
    try (eexists (_ :: _ :: _ :: _ :: _ :: _ :: []); split; [reflexivity|]);
    try (eexists (_ :: _ :: _ :: _ :: _ :: []); split; [reflexivity|]);
    try (eexists (_ :: _ :: _ :: _ :: []); split; [reflexivity|]);
    try (eexists (_ :: _ :: _ :: []); split; [reflexivity|]);
    repeat constructor.
Qed.

Lemma Dial_closes_last_session_first_witness :
  let o := {| dialed := inl 7%nat; session := inl 8%nat;
              stdin := inl 9%nat; stdout := inr (Failure "stdout");
              subsystem_err := None |} in
  ∃ calls,
    (Dial o (Scenario.peer_of Scenario.connA 1 2)
       Scenario.source Scenario.target).2
    = calls ++ [SessionClose 8%nat; ClientClose 7%nat]
    ∧ Forall (fun e => PeersDial.is_Close e = false) calls.
Proof.
  intros o.
  apply (proj1 (Dial_closes_last_session_first o
                  (Scenario.peer_of Scenario.connA 1 2)
                  Scenario.source Scenario.target)); reflexivity.
Defined.

(** X14. [clusterPeer.Dial] sends a subsystem request only after the
    connect, the session and both pipes have succeeded. *)
Theorem Dial_request_only_after_pipes (o : outcomes) (s : clusterPeer)
    (from to : net.Addr) :
  subsystem_requests (Dial o s from to).2 ≠ [] →
  ∃ c se w r, dialed o = inl c ∧ session o = inl se
              ∧ stdin o = inl w ∧ stdout o = inl r.
Proof.
  destruct o as [[c|e1] [se|e2] [w|e3] [r|e4] [e5|]]; cbn; intros Hsent;
    try (by destruct Hsent); eauto 10.
Qed.

Lemma Dial_request_only_after_pipes_witness :
  let o := {| dialed := inl 7%nat; session := inl 8%nat;
              stdin := inl 9%nat; stdout := inl 10%nat;
              subsystem_err := Some (Failure "refused") |} in
  subsystem_requests
    (Dial o (Scenario.peer_of Scenario.connA 1 2)
       Scenario.source Scenario.target).2 ≠ []
  ∧ ∃ c se w r, dialed o = inl c ∧ session o = inl se
                ∧ stdin o = inl w ∧ stdout o = inl r.
Proof.
  intros o.
  assert (subsystem_requests
            (Dial o (Scenario.peer_of Scenario.connA 1 2)
               Scenario.source Scenario.target).2 ≠ []) as Hsent.
  { vm_compute. discriminate. }
  split; [exact Hsent|].
  exact (Dial_request_only_after_pipes o _ _ _ Hsent).
Defined.

End PeerDialExtras.

(** ** More on the construction of a peer *)

Module ConstructExtras.
Import Construct.

(** X15. [newClusterPeer] returns a peer exactly when [auth.NewClient] and
    [newAccessPoint] return no error.  When [auth.NewClient] fails the
    wrapped error is returned and [newAccessPoint] is not called; when
    [newAccessPoint] fails its wrapped error is returned.  The peer
    returned holds the connection and the server it was built for, the
    client of [auth.NewClient] and the access point built over that
    client under the cache name "reverse", cluster name. *)
Theorem newClusterPeer_outcome (o : outcomes) (srv0 : server)
    (conn : services.TunnelConnection) :
  let res := (newClusterPeer o srv0 conn).1 in
  let calls := (newClusterPeer o srv0 conn).2 in
  (∀ e, (authClient o).2 = Some e →
     res = (None, Some (Wrap e))
     ∧ ∀ c name, NewAccessPoint c name ∉ calls)
  ∧ (∀ e, (authClient o).2 = None → (newAccessPoint o).2 = Some e →
       res = (None, Some (Wrap e)))
  ∧ ((authClient o).2 = None → (newAccessPoint o).2 = None →
       ∃ peer,
         res = (Some peer, None)
         ∧ connInfo peer = conn ∧ srv peer = srv0
         ∧ clt peer = (authClient o).1
         ∧ accessPoint peer = (newAccessPoint o).1
         ∧ NewAccessPoint (authClient o).1
             ["reverse"; services.GetClusterName conn] ∈ calls).
Proof.
  destruct o as [[d ed] [c [ec|]] [a [ea|]]]; cbn;
    split_and!; intros; simplify_eq; try (split; [reflexivity|]);
    try reflexivity.
  - intros c0 name Hin.
    repeat (apply elem_of_cons in Hin as [Hin|Hin]; [discriminate|]).
    by apply elem_of_nil in Hin.
  - intros c0 name Hin.
    repeat (apply elem_of_cons in Hin as [Hin|Hin]; [discriminate|]).
    by apply elem_of_nil in Hin.
  - eexists. split_and!; try reflexivity.
    do 2 apply list_elem_of_further. apply list_elem_of_here.
Qed.

Lemma newClusterPeer_outcome_witness :
  let failing := {| proxyDialer := (Some 5%nat, None);
                    authClient := (None, Some (Failure "client"));
                    newAccessPoint := (Some 6%nat, None) |} in
  let working := {| proxyDialer := (Some 5%nat, None);
                    authClient := (Some 4%nat, None);
                    newAccessPoint := (Some 6%nat, None) |} in
  (newClusterPeer failing 0%nat Scenario.connA).1
    = (None, Some (Wrap (Failure "client")))
  ∧ ∃ peer,
      (newClusterPeer working 0%nat Scenario.connA).1 = (Some peer, None)
      ∧ connInfo peer = Scenario.connA ∧ srv peer = 0%nat
      ∧ clt peer = Some 4%nat
      ∧ accessPoint peer = Some 6%nat
      ∧ NewAccessPoint (Some 4%nat) ["reverse"; "prod"]
          ∈ (newClusterPeer working 0%nat Scenario.connA).2.
Proof.
  intros failing working. split.
  - apply (proj1 (newClusterPeer_outcome failing 0%nat Scenario.connA)
             (Failure "client")).
    reflexivity.
  - apply (proj2 (proj2 (newClusterPeer_outcome working 0%nat Scenario.connA)));
      reflexivity.
Defined.

End ConstructExtras.

(** ** More on dialing in the local cluster *)

Module LocalSiteExtras.
Import LocalSite.

(** Splits the membership of a call in an explicit trace into its cases. *)
Ltac in_trace H :=
  repeat (apply elem_of_cons in H as [H|H]; [try discriminate|]);
  try (by apply elem_of_nil in H).

(** X16. [localSite.Dial] takes the lock of the site before anything else
    and releases it as its last call, once each, on every return path and
    in either mode. *)
Theorem Dial_holds_the_lock (recordingProxy : bool) (o : outcomes)
    (s : localSite) (from to : net.Addr) :
  (∃ calls,
     (Go.run (Dial_body recordingProxy o s from to)).2 = Lock :: calls ++ [Unlock]
     ∧ Forall (fun e => e ≠ Lock ∧ e ≠ Unlock) calls)
  ∧ ∃ calls,
      (Dial o s from to).2 = Lock :: calls ++ [Unlock]
      ∧ Forall (fun e => e ≠ Lock ∧ e ≠ Unlock) calls.
Proof.
  destruct recordingProxy, o as [[cert|e1] [fw|e2] [conn|e3] d]; cbn;
    (split;
     [ first [ eexists (_ :: _ :: _ :: _ :: []); split; [reflexivity|]
             | eexists (_ :: _ :: _ :: []); split; [reflexivity|]
             | eexists (_ :: _ :: []); split; [reflexivity|] ]
     | first [ eexists (_ :: _ :: _ :: _ :: []); split; [reflexivity|]
             | eexists (_ :: _ :: _ :: []); split; [reflexivity|]
             | eexists (_ :: _ :: []); split; [reflexivity|] ] ]);
    repeat constructor; discriminate.
Qed.

(** X17. [localSite.Dial] returns a connection exactly when the cache
    lookup, [forward.New] and the dial of the forwarder all succeed, and
    then it is the connection of the forwarder; a failure ends the calls
    and is returned wrapped.  The forwarder is built from the client and
    the agent of the site, the source address and the certificate that the
    cache returned, and the server dialed is the one [forward.New]
    returned, on the target address.  A direct dial does not take part. *)
Theorem Dial_through_the_forwarder (o : outcomes) (s : localSite)
    (from to : net.Addr) :
  let res := (Dial o s from to).1 in
  let tr := (Dial o s from to).2 in
  ((∃ conn, res = (Some conn, None))
   ↔ ∃ cert fw conn, cached o = inl cert ∧ forwarder o = inl fw
                     ∧ forwarded o = inl conn)
  ∧ (∀ cert fw conn, cached o = inl cert → forwarder o = inl fw →
       forwarded o = inl conn → res = (Some conn, None))
  ∧ (∀ e, cached o = inr e →
       res = (None, Some (Wrap e))
       ∧ tr = [Lock; Debugf "[PROXY] localSite.Dial(from=%v, to=%v)"
                       [net.String from; net.String to];
               CacheGet (net.String to); Unlock])
  ∧ (∀ cert e, cached o = inl cert → forwarder o = inr e →
       res = (None, Some (Wrap e))
       ∧ ∀ fw addr, ForwarderDial fw addr ∉ tr)
  ∧ (∀ cert fw e, cached o = inl cert → forwarder o = inl fw →
       forwarded o = inr e → res = (None, Some (Wrap e)))
  ∧ (∀ c a src cert, ForwardNew c a src cert ∈ tr →
       c = client s ∧ a = agent s ∧ src = net.String from
       ∧ cached o = inl cert)
  ∧ (∀ fw addr, ForwarderDial fw addr ∈ tr →
       forwarder o = inl fw ∧ addr = net.String to)
  ∧ (∀ d, Dial {| cached := cached o; forwarder := forwarder o;
                  forwarded := forwarded o; direct := d |} s from to
          = Dial o s from to).
Proof.
  destruct o as [[cert|e1] [fw|e2] [conn|e3] d]; cbn;
    (split; [split; [intros [c0 Hres]; try discriminate; eauto 10
                    |intros (? & ? & ? & ? & ? & ?); try discriminate; eauto]|]);
    split_and!; intros; simplify_eq; try (split; [reflexivity|]);
    try reflexivity;
    try match goal with
        | |- ∀ _ _, _ ∉ _ => let H := fresh in intros ? ? H; in_trace H
        | H : _ ∈ _ |- _ => in_trace H; by simplify_eq
        end.
Qed.

Lemma Dial_through_the_forwarder_witness :
  let site := {| client := Some 1%nat; agent := Some 2%nat;
                 domainName := "prod" |} in
  let o := {| cached := inl 3%nat; forwarder := inl 4%nat;
              forwarded := inl 5%nat; direct := (Some 6%nat, None) |} in
  let o' := {| cached := inl 3%nat; forwarder := inr (Failure "forward");
               forwarded := inl 5%nat; direct := (Some 6%nat, None) |} in
  (Dial o site Scenario.source Scenario.target).1 = (Some 5%nat, None)
  ∧ (Dial o' site Scenario.source Scenario.target).1
    = (None, Some (Wrap (Failure "forward")))
  ∧ (∀ fw addr,
       ForwarderDial fw addr ∉ (Dial o' site Scenario.source Scenario.target).2).
Proof.
  intros site o o'.
  destruct (Dial_through_the_forwarder o site Scenario.source Scenario.target)
    as (_ & Hok & _).
  destruct (Dial_through_the_forwarder o' site Scenario.source Scenario.target)
    as (_ & _ & _ & Hfw & _).
  split; [apply (Hok 3%nat 4%nat 5%nat); reflexivity|].
  apply (Hfw 3%nat (Failure "forward")); reflexivity.
Defined.

End LocalSiteExtras.

(** ** Looking a server up by address *)

Module FindServerExtras.
Import FindServer.

Section SplitHostPort.

Variable SplitHostPort : string -> (string * string) + string.

Lemma length_zero (s : string) : (String.length s =? 0)%nat = false ↔ s ≠ "".
Proof.
  destruct s; cbn; split; (done || (intros H; by destruct H) || idtac).
Qed.

(** The test of the loop on a server whose address splits is the
    acceptance of that server. *)
Lemma is_addressed_accepted addr srv host port :
  SplitHostPort (GetAddr srv) = inl (host, port) →
  is_addressed addr srv port = true ↔ accepted SplitHostPort addr srv.
Proof.
  intros Hsplit. unfold is_addressed, accepted.
  rewrite !andb_true_iff, orb_true_iff, !negb_true_iff, !length_zero,
    !bool_decide_eq_true.
  split.
  - intros [[Hname Hport] Haddr]. by exists host, port.
  - intros (host' & port' & Hsplit' & Hname & Hport & Haddr).
    rewrite Hsplit in Hsplit'. by simplify_eq.
Qed.

Lemma unsplit_not_accepted addr srv err :
  SplitHostPort (GetAddr srv) = inr err → ¬ accepted SplitHostPort addr srv.
Proof. intros Hsplit (host & port & Hsplit' & _). congruence. Qed.

Lemma warnings_cons_split srv rest host port :
  SplitHostPort (GetAddr srv) = inl (host, port) →
  omap (warning_of SplitHostPort) (srv :: rest)
  = omap (warning_of SplitHostPort) rest.
Proof. intros Hsplit. cbn. unfold warning_of at 1. by rewrite Hsplit. Qed.

Lemma warnings_cons_unsplit srv rest err :
  SplitHostPort (GetAddr srv) = inr err →
  omap (warning_of SplitHostPort) (srv :: rest)
  = Warningf "server %v(%v) has incorrect address format (%v)"
      [GetAddr srv; GetHostname srv; err]
    :: omap (warning_of SplitHostPort) rest.
Proof. intros Hsplit. cbn. unfold warning_of at 1. by rewrite Hsplit. Qed.

(** The result of [findServer], with the servers it passed over. *)
Lemma findServer_cases addr servers :
  (∃ pre srv post,
     servers = pre ++ srv :: post
     ∧ accepted SplitHostPort addr srv
     ∧ Forall (fun s => ¬ accepted SplitHostPort addr s) pre
     ∧ findServer SplitHostPort addr servers
       = ((Some srv, None), omap (warning_of SplitHostPort) pre))
  ∨ (Forall (fun s => ¬ accepted SplitHostPort addr s) servers
     ∧ findServer SplitHostPort addr servers
       = ((None, Some (NotFound ("server " +:+ addr +:+ " is unknown"))),
          omap (warning_of SplitHostPort) servers)).
Proof.
  induction servers as [|srv rest IH].
  - right. by split.
  - cbn [findServer].
    destruct (SplitHostPort (GetAddr srv)) as [[host port]|err] eqn:Hsplit.
    + destruct (is_addressed addr srv port) eqn:Htest.
      * left. exists [], srv, rest. split_and!; [done| |done|done].
        by apply (is_addressed_accepted addr srv host port Hsplit).
      * assert (¬ accepted SplitHostPort addr srv) as Hno.
        { rewrite <- (is_addressed_accepted addr srv host port Hsplit).
          by rewrite Htest. }
        destruct IH as [(pre & found & post & -> & Hacc & Hpre & Hres)|[Hall Hres]].
        -- left. exists (srv :: pre), found, post.
           split_and!; [done|done|by constructor|].
           by rewrite Hres, (warnings_cons_split srv pre host port).
        -- right. split; [by constructor|].
           by rewrite Hres, (warnings_cons_split srv rest host port).
    + pose proof (unsplit_not_accepted addr srv err Hsplit) as Hno.
      destruct IH as [(pre & found & post & -> & Hacc & Hpre & Hres)|[Hall Hres]].
      * left. exists (srv :: pre), found, post.
        split_and!; [done|done|by constructor|].
        by rewrite Hres, (warnings_cons_unsplit srv pre err).
      * right. split; [by constructor|].
        by rewrite Hres, (warnings_cons_unsplit srv rest err).
Qed.

(** X18. A server that [findServer] returns is one of the list, has a
    hostname that is not empty and an address that splits with a port that
    is not empty, and the address looked for is its hostname with that port
    or its address; every server before it in the list fails this. *)
Theorem findServer_found_is_first_accepted addr servers srv :
  (findServer SplitHostPort addr servers).1 = (Some srv, None) →
  ∃ pre post,
    servers = pre ++ srv :: post
    ∧ (∃ host port,
         SplitHostPort (GetAddr srv) = inl (host, port)
         ∧ GetHostname srv ≠ "" ∧ port ≠ ""
         ∧ (addr = GetHostname srv +:+ ":" +:+ port ∨ addr = GetAddr srv))
    ∧ Forall (fun s => ¬ accepted SplitHostPort addr s) pre.
Proof.
  intros Hfound.
  destruct (findServer_cases addr servers)
    as [(pre & found & post & -> & Hacc & Hpre & Hres)|[_ Hres]];
    rewrite Hres in Hfound; [|done].
  injection Hfound as ->. by exists pre, post.
Qed.

(** X19. [findServer] fails exactly when no server of the list is
    accepted for the address, in particular on the empty list; the error
    then is NotFound, and there is no other way for it to fail. *)
Theorem findServer_NotFound_iff_none_accepted addr servers :
  let res := (findServer SplitHostPort addr servers).1 in
  (res = (None, Some (NotFound ("server " +:+ addr +:+ " is unknown")))
   ↔ Forall (fun s => ¬ accepted SplitHostPort addr s) servers)
  ∧ ((∃ srv, res = (Some srv, None))
     ∨ res = (None, Some (NotFound ("server " +:+ addr +:+ " is unknown"))))
  ∧ (findServer SplitHostPort addr []).1
    = (None, Some (NotFound ("server " +:+ addr +:+ " is unknown"))).
Proof.
  cbn zeta.
  destruct (findServer_cases addr servers)
    as [(pre & found & post & -> & Hacc & Hpre & Hres)|[Hall Hres]];
    rewrite Hres; cbn [fst]; split_and!; try done; eauto.
  split; [done|]. intros Hall.
  apply Forall_app in Hall as [_ Hall]. by inversion Hall.
Qed.

(** X20. [findServer] returns the first accepted server of the list, and
    it logs one warning for each server before it whose address does not
    split, in the order of the list, and nothing else. *)
Theorem findServer_returns_first_accepted addr pre srv post :
  accepted SplitHostPort addr srv →
  Forall (fun s => ¬ accepted SplitHostPort addr s) pre →
  findServer SplitHostPort addr (pre ++ srv :: post)
  = ((Some srv, None), omap (warning_of SplitHostPort) pre).
Proof.
  intros Hacc Hpre. induction Hpre as [|s pre0 Hno _ IH].
  - destruct Hacc as (host & port & Hsplit & Hrest).
    assert (is_addressed addr srv port = true) as Htest.
    { apply (is_addressed_accepted addr srv host port Hsplit).
      by exists host, port. }
    cbn. by rewrite Hsplit, Htest.
  - cbn [app findServer].
    destruct (SplitHostPort (GetAddr s)) as [[host port]|err] eqn:Hsplit.
    + destruct (is_addressed addr s port) eqn:Htest.
      { destruct Hno. by apply (is_addressed_accepted addr s host port Hsplit). }
      by rewrite IH, (warnings_cons_split s pre0 host port).
    + by rewrite IH, (warnings_cons_unsplit s pre0 err).
Qed.

End SplitHostPort.

Lemma scenario_beta_accepted :
  accepted ServerScenario.split "beta:3022" ServerScenario.beta.
Proof. exists "10.0.0.6", "3022". split_and!; [done|done|done|by left]. Qed.

Lemma scenario_none_before_beta addr :
  Forall (fun s => ¬ accepted ServerScenario.split addr s)
    [ServerScenario.nameless; ServerScenario.portless].
Proof.
  repeat constructor.
  - intros (host & port & _ & Hname & _). by destruct Hname.
  - intros (host & port & Hsplit & _). vm_compute in Hsplit. discriminate.
Qed.

Lemma findServer_found_is_first_accepted_witness :
  ∃ pre post,
    ServerScenario.servers = pre ++ ServerScenario.beta :: post
    ∧ (∃ host port,
         ServerScenario.split (GetAddr ServerScenario.beta) = inl (host, port)
         ∧ GetHostname ServerScenario.beta ≠ "" ∧ port ≠ ""
         ∧ ("beta:3022" = GetHostname ServerScenario.beta +:+ ":" +:+ port
            ∨ "beta:3022" = GetAddr ServerScenario.beta))
    ∧ Forall (fun s => ¬ accepted ServerScenario.split "beta:3022" s) pre.
Proof.
  apply (findServer_found_is_first_accepted ServerScenario.split
           "beta:3022" ServerScenario.servers ServerScenario.beta).
  reflexivity.
Defined.

Lemma findServer_NotFound_iff_none_accepted_witness :
  (findServer ServerScenario.split "10.0.0.5:3022"
     [ServerScenario.nameless; ServerScenario.portless]).1
  = (None, Some (NotFound "server 10.0.0.5:3022 is unknown")).
Proof.
  apply (proj1 (findServer_NotFound_iff_none_accepted ServerScenario.split
                  "10.0.0.5:3022"
                  [ServerScenario.nameless; ServerScenario.portless])).
  apply scenario_none_before_beta.
Defined.

Lemma findServer_returns_first_accepted_witness :
  findServer ServerScenario.split "beta:3022" ServerScenario.servers
  = ((Some ServerScenario.beta, None),
     [Warningf "server %v(%v) has incorrect address format (%v)"
        ["10.0.0.7"; "gamma"; "missing port in address"]]).
Proof.
  apply (findServer_returns_first_accepted ServerScenario.split "beta:3022"
           [ServerScenario.nameless; ServerScenario.portless]
           ServerScenario.beta []).
  - apply scenario_beta_accepted.
  - apply scenario_none_before_beta.
Defined.

End FindServerExtras.

(** ** The local site from its construction to a dial *)

Module LocalSiteFullExtras.
Import LocalSiteFull LocalSiteExtras.

(** X21. [newlocalSite] fails with the wrapped error of [newAccessPoint]
    when that fails, and otherwise returns a site of the given name over
    the given client and the new access point, with the certificate cache
    made for that client and no agent: a dial of a site just built calls
    [forward.New] with the client of the site and a nil agent. *)
Theorem newlocalSite_outcome (ap : AccessPoint * error) (srv0 : server)
    (domain : string) (client0 : ClientI) :
  (∀ e, ap.2 = Some e →
     newlocalSite ap srv0 domain client0
     = ((None, Some (Wrap e)), [NewAccessPoint client0 ["reverse"; domain]]))
  ∧ (ap.2 = None →
       ∃ site,
         newlocalSite ap srv0 domain client0
         = ((Some site, None), [NewAccessPoint client0 ["reverse"; domain]])
         ∧ GetName site = domain
         ∧ GetClient site = (client0, None)
         ∧ CachingAccessPoint site = (ap.1, None)
         ∧ certificateCache site = Some (NewHostCertificateCache client0)
         ∧ agent site = None
         ∧ ∀ o from to c a src cert,
             LocalSite.ForwardNew c a src cert ∈ (Dial o site from to).2 →
             c = client0 ∧ a = None).
Proof.
  destruct ap as [a [e|]]; cbn; split; intros; simplify_eq; [done|].
  eexists. split_and!; try reflexivity.
  intros o from to c a0 src cert Hin.
  destruct o as [[cert0|e1] [fw|e2] [conn|e3] d]; cbn in Hin;
    in_trace Hin; by simplify_eq.
Qed.

Lemma newlocalSite_outcome_witness :
  newlocalSite (None, Some (Failure "cache")) 0%nat "prod" (Some 1%nat)
  = ((None, Some (Wrap (Failure "cache"))),
     [NewAccessPoint (Some 1%nat) ["reverse"; "prod"]])
  ∧ ∃ site,
      newlocalSite (Some 2%nat, None) 0%nat "prod" (Some 1%nat)
      = ((Some site, None), [NewAccessPoint (Some 1%nat) ["reverse"; "prod"]])
      ∧ GetName site = "prod"
      ∧ agent site = None.
Proof.
  split.
  - apply (proj1 (newlocalSite_outcome (None, Some (Failure "cache")) 0%nat
                    "prod" (Some 1%nat))).
    reflexivity.
  - destruct (proj2 (newlocalSite_outcome (Some 2%nat, None) 0%nat
                       "prod" (Some 1%nat)) eq_refl)
      as (site & Hnew & Hname & _ & _ & _ & Hagent & _).
    exists site. by split_and!.
Defined.



End LocalSiteFullExtras.

(** ** A failed connect *)

Module ConnectExtras.
Import PeerDial.

(** X23. When the connect to the proxy of the peer fails,
    [clusterPeer.Dial] has made that one call, to the proxy address of the
    connection of the peer and on the network of the target, and nothing
    else: no session, no pipe, no request and no close; it returns a nil
    connection and the wrapped error. *)
Theorem Dial_failed_connect_calls_nothing_else (o : outcomes)
    (s : clusterPeer) (from to : net.Addr) err :
  dialed o = inr err →
  (Dial o s from to).1 = (None, Some (Wrap err))
  ∧ ∃ logged,
      (Dial o s from to).2 =
        [logged;
         DialWithDeadline (net.Network to)
           (services.GetProxyAddr (connInfo s)) (srv s)]
      ∧ ∃ format args, logged = Infof format args.
Proof.
  intros Hdial.
  rewrite (PeerDialFacts.Dial_connect_fails o s from to err Hdial).
  split; [done|]. eexists. split; [done|]. by do 2 eexists.
Qed.

Lemma Dial_failed_connect_calls_nothing_else_witness :
  let o := {| dialed := inr (Failure "timeout"); session := inl 8%nat;
              stdin := inl 9%nat; stdout := inl 10%nat;
              subsystem_err := None |} in
  (Dial o (Scenario.peer_of Scenario.connA 1 2)
     Scenario.source Scenario.target).1
  = (None, Some (Wrap (Failure "timeout")))
  ∧ ∃ logged,
      (Dial o (Scenario.peer_of Scenario.connA 1 2)
         Scenario.source Scenario.target).2
      = [logged; DialWithDeadline "tcp" "192.168.1.1:3024" 0%nat]
      ∧ ∃ format args, logged = Infof format args.
Proof.
  intros o.
  apply (Dial_failed_connect_calls_nothing_else o
           (Scenario.peer_of Scenario.connA 1 2)
           Scenario.source Scenario.target (Failure "timeout")).
  reflexivity.
Defined.

End ConnectExtras.
